(** * neomura-c-tool-aseprite: the sprite-sheet to C transform

    A shallow embedding of [src/index.ts]: the per-frame derivation
    (geometry limits, duration quantisation, pixel buffer), the tag
    expansion (forward / reverse / pingpong), the header and source
    templates, and the identifier normaliser they rely on.

    Conventions.  JavaScript numbers that hold pixel coordinates, sizes,
    indices and millisecond durations are integers well below 2^53, so
    they are modelled in [Z]; the two offsets, which are halves, live in
    [Q]; the one place where the code really computes in binary64
    (alpha premultiplication) uses the Standard Library's [spec_float].
    A [throw] becomes the [Throw] constructor of [result]. *)

From Stdlib Require Import ZArith QArith String Ascii List Lia Bool.
From Stdlib Require Import Floats.SpecFloat.
From Stdlib Require HexadecimalString Qcanon.
From stdpp Require Import base option list strings pretty.

Open Scope Z_scope.

(** ** Errors and the error monad *)

(** Everything the program can throw while transforming.  The first
    group are the strings thrown by [index.ts] itself, kept structured
    here and rendered by [message]; [TypeError] and [RangeError] are
    thrown by the JavaScript runtime (reading a property of [undefined],
    [Buffer.alloc] with a negative size). *)
Inductive error : Type :=
| WidthLimit (frameNumber width : Z)
| HeightLimit (frameNumber height : Z)
| XOffsetUpperLimit (frameNumber : Z) (xOffset : Q)
| XOffsetLowerLimit (frameNumber : Z) (xOffset : Q)
| YOffsetUpperLimit (frameNumber : Z) (yOffset : Q)
| YOffsetLowerLimit (frameNumber : Z) (yOffset : Q)
| IncompatibleDuration (frameNumber duration refreshRate : Z)
| FrameCountLimit (count : Z)
| TagDurationLimit (name : string) (duration : Z)
| UnimplementedDirection (name direction : string)
| TypeError
| RangeError.

(** The error taxonomy of the specification. *)
Inductive error_class : Type :=
| GeometryLimitExceeded
| DurationIncompatible
| FrameCountLimitExceeded
| TagDurationLimitExceeded
| FatalProtocolError.

Definition classify (e : error) : option error_class :=
  match e with
  | WidthLimit _ _ | HeightLimit _ _
  | XOffsetUpperLimit _ _ | XOffsetLowerLimit _ _
  | YOffsetUpperLimit _ _ | YOffsetLowerLimit _ _ => Some GeometryLimitExceeded
  | IncompatibleDuration _ _ _ => Some DurationIncompatible
  | FrameCountLimit _ => Some FrameCountLimitExceeded
  | TagDurationLimit _ _ => Some TagDurationLimitExceeded
  | UnimplementedDirection _ _ => Some FatalProtocolError
  | TypeError | RangeError => None
  end.


Inductive result (A : Type) : Type :=
| Ok (a : A)
| Throw (e : error).
Arguments Ok {A} a.
Arguments Throw {A} e.

#[global] Instance result_ret : MRet result := fun A a => Ok a.
#[global] Instance result_bind : MBind result := fun A B f m =>
  match m with
  | Ok a => f a
  | Throw e => Throw e
  end.

(** ** JavaScript values the code relies on *)

Module Js.

(** [array[index]]: [undefined] (here [None]) outside the array. *)
Definition get {A} (array : list A) (index : Z) : option A :=
  if index <? 0 then None else array !! Z.to_nat index.

(** A binary64 number. *)
Definition number : Type := spec_float.

Definition of_Z (n : Z) : number := binary_normalize 53 1024 n 0 false.

(** [ToNumber] of an array element: [undefined] is [NaN]. *)
Definition of_element (element : option Z) : number :=
  match element with
  | Some byte => of_Z byte
  | None => S754_nan
  end.

Definition div (a b : number) : number := SFdiv 53 1024 a b.
Definition mul (a b : number) : number := SFmul 53 1024 a b.
Definition sub (a b : number) : number := SFsub 53 1024 a b.

(** The integer below a finite number. *)
Definition floor_Z (s : bool) (m : positive) (e : Z) : Z :=
  let signed := if s then Z.neg m else Z.pos m in
  if 0 <=? e then signed * 2 ^ e else signed / 2 ^ (- e).

(** [Math.floor]. *)
Definition floor (a : number) : number :=
  match a with
  | S754_finite s m e => of_Z (floor_Z s m e)
  | _ => a
  end.

(** The integer part of a number, towards zero; 0 for NaN and
    infinities, as in the conversion to an integer element. *)
Definition truncate (a : number) : Z :=
  match a with
  | S754_finite s m e =>
      let magnitude :=
        if 0 <=? e then Z.pos m * 2 ^ e else Z.pos m / 2 ^ (- e) in
      if s then - magnitude else magnitude
  | _ => 0
  end.

(** The byte stored by [buffer[index] = a]. *)
Definition to_uint8 (a : number) : Z := truncate a mod 256.

(** [buffer[index] = a] on a [Buffer]: ignored outside the buffer. *)
Definition set (buffer : list Z) (index : Z) (a : number) : list Z :=
  if index <? 0 then buffer else <[Z.to_nat index := to_uint8 a]> buffer.

(** [Buffer.alloc(size)]: zero-filled; a negative size is a
    [RangeError].  (The platform's upper limit is not modelled.) *)
Definition alloc (size : Z) : result (list Z) :=
  if size <? 0 then Throw RangeError
  else Ok (replicate (Z.to_nat size) 0).

End Js.

(** ** Input data *)

Module Data.

(** One entry of [data.frames]; [frame_w f] is [f.frame.w] and so on. *)
Record Frame : Type := {
  frame_x : Z;
  frame_y : Z;
  frame_w : Z;
  frame_h : Z;
  spriteSourceSize_x : Z;
  spriteSourceSize_y : Z;
  sourceSize_w : Z;
  sourceSize_h : Z;
  duration : Z
}.

(** The declared directions, and any other string the JSON may hold
    (the [default] branch of the [switch]). *)
Inductive Direction : Type :=
| forward
| reverse
| pingpong
| unexpected (direction : string).

(** One entry of [data.meta.frameTags]. *)
Record FrameTag : Type := {
  name : string;
  from : Z;
  to : Z;
  direction : Direction
}.

Record t : Type := {
  frames : list Frame;
  frameTags : list FrameTag
}.

End Data.

(** The decoded sheet: [png.width], [png.height], [png.data]. *)
Module Png.
Record t : Type := {
  width : Z;
  height : Z;
  data : list Z
}.
End Png.

(** ** Derived frames *)

Module Frame.
Record t : Type := {
  width : Z;
  height : Z;
  xOffset : Q;
  yOffset : Q;
  duration : Z;
  rgba : list Z
}.
End Frame.

(** [a > b] on rationals. *)
Definition Qgtb (a b : Q) : bool := negb (Qle_bool a b).
(** [a < b] on rationals. *)
Definition Qltb (a b : Q) : bool := negb (Qle_bool b a).

(** [spriteSourceSize - sourceSize / 2], the offset from the centre of
    the canvas; kept in lowest terms. *)
Definition offset (spriteSource source : Z) : Q :=
  Qred (inject_Z spriteSource - inject_Z source / 2).

(** Lines 269-290: the three nested loops that fill the local buffer. *)
Definition fill_rgba (png : Png.t) (frame : Data.Frame) (rgba : list Z)
    : list Z :=
  foldl (fun rgba y =>
    foldl (fun rgba x =>
      let alpha :=
        Js.get (Png.data png)
          ((y + Data.frame_y frame) * Png.width png * 4
           + (x + Data.frame_x frame) * 4 + 3) in
      let alphaCoefficient := Js.div (Js.of_element alpha) (Js.of_Z 255) in
      let rgba :=
        foldl (fun rgba channel =>
          Js.set rgba (y * Data.frame_w frame + x + channel)
            (Js.floor
               (Js.mul
                  (Js.of_element
                     (Js.get (Png.data png)
                        ((y + Data.frame_y frame) * Png.width png * 4
                         + (x + Data.frame_x frame) * 4 + channel)))
                  alphaCoefficient)))
          rgba (seqZ 0 3) in
      Js.set rgba (y * Data.frame_w frame + x + 3)
        (Js.sub (Js.of_Z 255) (Js.of_element alpha)))
      rgba (seqZ 0 (Data.frame_w frame)))
    rgba (seqZ 0 (Data.frame_h frame)).

(** Lines 194-300: the callback mapped over the frames. *)
Definition derive_frame (refreshRate : Z) (png : Png.t)
    (index : Z) (frame : Data.Frame) : result Frame.t :=
  let width := Data.frame_w frame in
  if 65535 <? width then Throw (WidthLimit (index + 1) width) else
  let height := Data.frame_h frame in
  if 65535 <? height then Throw (HeightLimit (index + 1) height) else
  let xOffset :=
    offset (Data.spriteSourceSize_x frame) (Data.sourceSize_w frame) in
  if Qgtb xOffset (inject_Z 32767)
  then Throw (XOffsetUpperLimit (index + 1) xOffset) else
  if Qltb xOffset (inject_Z (-32768))
  then Throw (XOffsetLowerLimit (index + 1) xOffset) else
  let yOffset :=
    offset (Data.spriteSourceSize_y frame) (Data.sourceSize_h frame) in
  if Qgtb yOffset (inject_Z 32767)
  then Throw (YOffsetUpperLimit (index + 1) yOffset) else
  if Qltb yOffset (inject_Z (-32768))
  then Throw (YOffsetLowerLimit (index + 1) yOffset) else
  if negb (Z.rem (Data.duration frame * refreshRate) 1000 =? 0)
  then Throw (IncompatibleDuration (index + 1) (Data.duration frame)
                refreshRate) else
  let duration := Data.duration frame * refreshRate / 1000 in
  rgba ← Js.alloc (Data.frame_w frame * Data.frame_h frame * 4);
  let rgba := fill_rgba png frame rgba in
  Ok {| Frame.width := width;
        Frame.height := height;
        Frame.xOffset := xOffset;
        Frame.yOffset := yOffset;
        Frame.duration := duration;
        Frame.rgba := Png.data png |}.

(** [array.map((element, index) => f(index, element))] when [f] may
    throw: elements are visited in order and the first throw ends it. *)
Fixpoint map_indexed {A B} (f : Z -> A -> result B) (index : Z)
    (array : list A) : result (list B) :=
  match array with
  | [] => Ok []
  | element :: rest =>
      b ← f index element;
      bs ← map_indexed f (index + 1) rest;
      Ok (b :: bs)
  end.

(** Lines 187-306: [frames], all derived frames, then the frame count
    limit. *)
Definition frames (refreshRate : Z) (png : Png.t) (data : Data.t)
    : result (list Frame.t) :=
  frames ← map_indexed (derive_frame refreshRate png) 0 (Data.frames data);
  if 65535 <? Z.of_nat (length frames)
  then Throw (FrameCountLimit (Z.of_nat (length frames)))
  else Ok frames.

(** ** Resolved tags *)

Module Tag.
Record t : Type := {
  name : string;
  indices : list Z;
  duration : Z
}.
End Tag.

(** [for (let index = start; test(index); index = next(index))
      indices.push(index);]
    The loops of the program count from one end of a range to the
    other, so [fuel] iterations are given to them up front;
    [push_loop_up] and [push_loop_down] show the loops leave through
    their test, whatever fuel is left. *)
Fixpoint push_loop (fuel : nat) (test : Z -> bool) (next : Z -> Z)
    (index : Z) (indices : list Z) : list Z :=
  match fuel with
  | O => indices
  | S fuel =>
      if test index
      then push_loop fuel test next (next index) (indices ++ [index])
      else indices
  end.

(** Enough iterations for any loop between [from] and [to]. *)
Definition range_fuel (from to : Z) : nat := Z.to_nat (Z.abs (to - from) + 1).

(** Lines 313-342: the [switch] on the direction. *)
Definition tag_indices (tag : Data.FrameTag) : result (list Z) :=
  let from := Data.from tag in
  let to := Data.to tag in
  let fuel := range_fuel from to in
  let indices := [] in
  match Data.direction tag with
  | Data.forward =>
      Ok (push_loop fuel (fun index => index <=? to) Z.succ from indices)
  | Data.reverse =>
      Ok (push_loop fuel (fun index => from <=? index) Z.pred to indices)
  | Data.pingpong =>
      let indices :=
        push_loop fuel (fun index => index <? to) Z.succ from indices in
      Ok (push_loop fuel (fun index => from <? index) Z.pred to indices)
  | Data.unexpected direction =>
      Throw (UnimplementedDirection (Data.name tag) direction)
  end.

(** Lines 344-348: [frames[index].duration] throws a [TypeError] when
    [frames[index]] is [undefined]. *)
Definition add_duration (frames : list Frame.t) (duration : Z) (index : Z)
    : result Z :=
  match Js.get frames index with
  | Some frame => Ok (duration + Frame.duration frame)
  | None => Throw TypeError
  end.

Fixpoint sum_durations (frames : list Frame.t) (duration : Z)
    (indices : list Z) : result Z :=
  match indices with
  | [] => Ok duration
  | index :: indices =>
      duration ← add_duration frames duration index;
      sum_durations frames duration indices
  end.

(** Lines 312-355: the callback mapped over the tags. *)
Definition expand_tag (frames : list Frame.t) (tag : Data.FrameTag)
    : result Tag.t :=
  indices ← tag_indices tag;
  duration ← sum_durations frames 0 indices;
  if 65535 <? duration
  then Throw (TagDurationLimit (Data.name tag) duration)
  else Ok {| Tag.name := Data.name tag;
             Tag.indices := indices;
             Tag.duration := duration |}.

(** Lines 308-355: [tags], all resolved tags. *)
Definition tags (frames : list Frame.t) (data : Data.t)
    : result (list Tag.t) :=
  map_indexed (fun _ tag => expand_tag frames tag) 0 (Data.frameTags data).

(** ** The identifier normaliser *)

(** The repository keeps the normaliser in
    [src/convert-file-name-to-identifier/index.ts], of which only the
    unit test is at hand; this module follows section 4.1 of the
    specification and is checked against the scenarios of that test
    ([unit_scenarios]). *)
Module Identifier.

Open Scope char_scope.

Definition is_upper (c : ascii) : bool :=
  (("A" <=? c) && (c <=? "Z"))%char.
Definition is_lower (c : ascii) : bool :=
  (("a" <=? c) && (c <=? "z"))%char.
Definition is_digit (c : ascii) : bool :=
  (("0" <=? c) && (c <=? "9"))%char.

(** Tab, line feed, vertical tab, form feed, carriage return, space. *)
Definition is_whitespace (c : ascii) : bool :=
  (("009" <=? c) && (c <=? "013") || (c =? " "))%char.

Definition is_separator (c : ascii) : bool :=
  is_whitespace c || (c =? "_")%char || (c =? "-")%char.

Definition to_lower (c : ascii) : ascii :=
  if is_upper c then ascii_of_nat (nat_of_ascii c + 32) else c.

Fixpoint lowercase (word : string) : string :=
  match word with
  | EmptyString => EmptyString
  | String c word => String (to_lower c) (lowercase word)
  end.

(** The pieces of [s] between characters that satisfy [p], empty
    pieces included. *)
Fixpoint split_on (p : ascii -> bool) (s : string) : list string :=
  match s with
  | EmptyString => [EmptyString]
  | String c s =>
      if p c then EmptyString :: split_on p s
      else match split_on p s with
           | piece :: pieces => String c piece :: pieces
           | [] => [String c EmptyString]
           end
  end.

Definition nonempty (s : string) : bool :=
  match s with
  | EmptyString => false
  | String _ _ => true
  end.

(** Step 1: the separator-delimited chunks; leading, trailing and
    repeated separators leave no chunk behind. *)
Definition chunks (s : string) : list string :=
  List.filter nonempty (split_on is_separator s).

(** A boundary falls before the uppercase letter [c] when it follows a
    lowercase letter, or follows an uppercase letter and is itself
    followed by a lowercase letter. *)
Definition boundary (previous c : ascii) (following : string) : bool :=
  is_upper c
  && (is_lower previous
      || (is_upper previous
          && match following with
             | String next _ => is_lower next
             | EmptyString => false
             end)).

(** Step 2 on what follows [previous] in a chunk: the rest of the word
    [previous] is in, then the further words. *)
Fixpoint split_case (previous : ascii) (s : string) : list string :=
  match s with
  | EmptyString => [EmptyString]
  | String c following =>
      match split_case c following with
      | word :: words =>
          if boundary previous c following
          then EmptyString :: String c word :: words
          else String c word :: words
      | [] => []
      end
  end.

Definition sub_words (chunk : string) : list string :=
  match chunk with
  | EmptyString => []
  | String c following =>
      match split_case c following with
      | word :: words => String c word :: words
      | [] => []
      end
  end.

(** Modelled from the spec: [convertFileNameToIdentifier], whose source
    file [src/convert-file-name-to-identifier/index.ts] is missing;
    section 4.1: split at separators, split each chunk at its casing
    transitions, lowercase every word and join all of them with single
    underscores. *)
Definition convertFileNameToIdentifier (fileName : string) : string :=
  String.concat "_"
    (List.map lowercase (List.flat_map sub_words (chunks fileName))).

(** A character of [a-z0-9]. *)
Definition is_plain (c : ascii) : bool := is_lower c || is_digit c.

Fixpoint all (p : ascii -> bool) (s : string) : bool :=
  match s with
  | EmptyString => true
  | String c s => p c && all p s
  end.

(** The scan that recognises an already normalised identifier;
    [after_underscore] says the previous character was an underscore
    (or there was none yet), where a word has to start. *)
Fixpoint normalized_from (after_underscore : bool) (s : string) : bool :=
  match s with
  | EmptyString => negb after_underscore
  | String c s =>
      if (c =? "_")%char
      then negb after_underscore && normalized_from true s
      else is_plain c && normalized_from false s
  end.

(** Words of [a-z0-9]+ joined by single underscores: no leading,
    trailing or repeated underscore; the identifier of no word at all
    is the empty one. *)
Definition is_normalized (s : string) : bool :=
  match s with
  | EmptyString => true
  | _ => normalized_from true s
  end.

End Identifier.

(** ** Node's [path] module *)

(** The functions of Node's [path] the program calls;
    [parse_name p] is [parse(p).name]. *)
Class Path : Type := {
  basename : string -> string;
  dirname : string -> string;
  relative : string -> string -> string;
  parse_name : string -> string
}.

(** A model of [path.posix]. *)
Module Posix.

Definition is_slash (c : ascii) : bool := (c =? "/")%char.

Fixpoint drop_while (p : ascii -> bool) (l : list ascii) : list ascii :=
  match l with
  | c :: rest => if p c then drop_while p rest else l
  | [] => []
  end.

Fixpoint take_while (p : ascii -> bool) (l : list ascii) : list ascii :=
  match l with
  | c :: rest => if p c then c :: take_while p rest else []
  | [] => []
  end.

(** The last segment of the path, trailing slashes ignored. *)
Definition basename (path : string) : string :=
  let backwards := drop_while is_slash (rev (list_ascii_of_string path)) in
  string_of_list_ascii
    (rev (take_while (fun c => negb (is_slash c)) backwards)).

(** Everything before the slash that starts the last segment; the
    first character is never examined. *)
Definition dirname (path : string) : string :=
  match list_ascii_of_string path with
  | [] => "."
  | first :: rest =>
      let backwards := drop_while is_slash (rev rest) in
      let backwards :=
        drop_while (fun c => negb (is_slash c)) backwards in
      match backwards with
      | [] => if is_slash first then "/" else "."
      | _ :: before =>
          if is_slash first && (length before =? 0)%nat then "//"
          else string_of_list_ascii (first :: rev before)
      end
  end.

(** The segments of a path. *)
Definition segments (path : string) : list string :=
  List.filter Identifier.nonempty (Identifier.split_on is_slash path).

Fixpoint strip_common (from to : list string)
    : list string * list string :=
  match from, to with
  | f :: from', t :: to' =>
      if String.eqb f t then strip_common from' to' else (from, to)
  | _, _ => (from, to)
  end.

(** One [..] for every segment of [from] below the common directory,
    then what is left of [to].  This is Node's answer for normalised
    paths (no [.] or [..] segments) that are both absolute or both
    relative; other paths Node first resolves against the working
    directory. *)
Definition relative (from to : string) : string :=
  let (up, down) := strip_common (segments from) (segments to) in
  String.concat "/" (List.map (fun _ => "..") up ++ down).

(** The base name without its extension: the extension starts at the
    last dot of the base name, unless that dot is its first character
    or the base name is [..]. *)
Definition parse_name (path : string) : string :=
  let base := list_ascii_of_string (basename path) in
  let extension :=
    rev (take_while (fun c => negb (c =? ".")%char) (rev base)) in
  let stem_length := (length base - length extension - 1)%nat in
  if (length extension =? length base)%nat then basename path
  else if (stem_length =? 0)%nat then basename path
  else if String.eqb (basename path) ".." then basename path
  else string_of_list_ascii (firstn stem_length base).

#[export] Instance path : Path := {
  basename := basename;
  dirname := dirname;
  relative := relative;
  parse_name := parse_name
}.

End Posix.

(** ** The code emitter *)

(** [commandLineArguments.strings] and [.integers]. *)
Record CommandLineArguments : Type := {
  asepriteFile : string;
  neomuraHeaderFile : string;
  neomuraSpritesHeaderFile : string;
  output : string;
  refreshRate : Z
}.

(** The line feed and the double quote of the templates. *)
Definition LF : string := String "010" EmptyString.
Definition QUOTE : string := String "034" EmptyString.

(** [String(n)] for an integer. *)
Definition integer_to_string (n : Z) : string := pretty n.

(** [String(n)] for an integer or a half, which is what the offsets
    are. *)
Definition number_to_string (n : Q) : string :=
  let n := Qred n in
  if (Qden n =? 1)%positive then pretty (Qnum n)
  else (if Qnum n <? 0 then "-" else EmptyString)
       +:+ pretty (Z.abs (Qnum n) / 2) +:+ ".5".

(** [byte.toString(16)]. *)
Definition to_string_16 (byte : Z) : string :=
  HexadecimalString.NilZero.string_of_uint (N.to_hex_uint (Z.to_N byte)).

(** The string thrown for each error of the program itself; the
    runtime's own errors carry no message of the program. *)
Definition message (e : error) : option string :=
  match e with
  | WidthLimit frameNumber width =>
      Some ("frame " +:+ integer_to_string frameNumber +:+ "'s width of "
            +:+ integer_to_string width
            +:+ " is wider than the limit of 65535 pixels.")
  | HeightLimit frameNumber height =>
      Some ("frame " +:+ integer_to_string frameNumber +:+ "'s height of "
            +:+ integer_to_string height
            +:+ " is taller than the limit of 65535 pixels.")
  | XOffsetUpperLimit frameNumber xOffset =>
      Some ("frame " +:+ integer_to_string frameNumber
            +:+ "'s x offset of " +:+ number_to_string xOffset
            +:+ " beyond the limit of 32767 pixels.")
  | XOffsetLowerLimit frameNumber xOffset =>
      Some ("frame " +:+ integer_to_string frameNumber
            +:+ "'s x offset of " +:+ number_to_string xOffset
            +:+ " beyond the limit of -32768 pixels.")
  | YOffsetUpperLimit frameNumber yOffset =>
      Some ("frame " +:+ integer_to_string frameNumber
            +:+ "'s y offset of " +:+ number_to_string yOffset
            +:+ " beyond the limit of 32767 pixels.")
  | YOffsetLowerLimit frameNumber yOffset =>
      Some ("frame " +:+ integer_to_string frameNumber
            +:+ "'s y offset of " +:+ number_to_string yOffset
            +:+ " beyond the limit of -32768 pixels.")
  | IncompatibleDuration frameNumber duration refreshRate =>
      Some ("frame " +:+ integer_to_string frameNumber
            +:+ "'s duration of " +:+ integer_to_string duration
            +:+ " milliseconds is incompatible with the refresh rate of "
            +:+ integer_to_string refreshRate +:+ " hertz.")
  | FrameCountLimit count =>
      Some ("the frame count " +:+ integer_to_string count
            +:+ " exceeds the limit of 65535.")
  | TagDurationLimit name duration =>
      Some ("tag " +:+ QUOTE +:+ name +:+ QUOTE +:+ "'s duration of "
            +:+ integer_to_string duration
            +:+ " frames is longer than the limit of 65535.")
  | UnimplementedDirection name direction =>
      Some ("tag " +:+ QUOTE +:+ name +:+ QUOTE
            +:+ " uses unimplemented direction " +:+ QUOTE +:+ direction
            +:+ QUOTE +:+ ".")
  | TypeError | RangeError => None
  end.

(** [array.length] as a number. *)
Definition length_of {A} (array : list A) : Z := Z.of_nat (length array).

(** [array.map((element, index) => f(element, index))]. *)
Definition map_with_index {A B} (f : A -> Z -> B) (array : list A) : list B :=
  imap (fun index element => f element (Z.of_nat index)) array.

Section Emitter.

Context {P : Path}.

Variable commandLineArguments : CommandLineArguments.

(** Lines 361-376. *)
Definition header (name : string) (tags : list Tag.t) : string :=
  "#pragma once" +:+ LF
  +:+ LF
  +:+ "#include " +:+ QUOTE
  +:+ relative (dirname (asepriteFile commandLineArguments))
        (neomuraHeaderFile commandLineArguments)
  +:+ QUOTE +:+ LF
  +:+ "#include " +:+ QUOTE
  +:+ relative (dirname (asepriteFile commandLineArguments))
        (neomuraSpritesHeaderFile commandLineArguments)
  +:+ QUOTE +:+ LF
  +:+ LF
  +:+ "extern const sprite_t " +:+ name +:+ ";" +:+ LF
  +:+ LF
  +:+ String.concat LF
        (List.map
           (fun tag =>
              "extern const sprite_animation_t " +:+ Tag.name tag +:+ ";")
           tags)
  +:+ LF.

(** One of the five parallel arrays of lines 382-396. *)
Definition static_array (type name suffix : string)
    (frames : list Frame.t) (values : list string) : string :=
  "static const " +:+ type +:+ " " +:+ name +:+ suffix +:+ "["
  +:+ integer_to_string (length_of frames) +:+ "] = { "
  +:+ String.concat ", " values +:+ " };" +:+ LF.

(** Lines 378-438. *)
Definition source (name : string) (frames : list Frame.t)
    (tags : list Tag.t) : string :=
  "#include " +:+ QUOTE
  +:+ basename (asepriteFile commandLineArguments) +:+ ".h"
  +:+ QUOTE +:+ LF
  +:+ LF
  +:+ static_array "u16_t" name "_widths" frames
        (List.map (fun frame => integer_to_string (Frame.width frame))
           frames)
  +:+ static_array "u16_t" name "_heights" frames
        (List.map (fun frame => integer_to_string (Frame.height frame))
           frames)
  +:+ static_array "s16_t" name "_x_offsets" frames
        (List.map (fun frame => number_to_string (Frame.xOffset frame))
           frames)
  +:+ static_array "s16_t" name "_y_offsets" frames
        (List.map (fun frame => number_to_string (Frame.yOffset frame))
           frames)
  +:+ static_array "u16_t" name "_durations" frames
        (List.map (fun frame => integer_to_string (Frame.duration frame))
           frames)
  +:+ String.concat LF
        (map_with_index
           (fun frame index =>
              "static const u8_t " +:+ name +:+ "_rgba_"
              +:+ integer_to_string index +:+ "["
              +:+ integer_to_string (length_of (Frame.rgba frame))
              +:+ "] = { "
              +:+ String.concat ", "
                    (List.map (fun byte => "0x" +:+ to_string_16 byte)
                       (Frame.rgba frame))
              +:+ " };")
           frames)
  +:+ LF
  +:+ "static const u8_t * " +:+ name +:+ "_rgba["
  +:+ integer_to_string (length_of frames) +:+ "] = { "
  +:+ String.concat ", "
        (map_with_index
           (fun _ index =>
              "&" +:+ name +:+ "_rgba_" +:+ integer_to_string index)
           frames)
  +:+ " };" +:+ LF
  +:+ LF
  +:+ "const sprite_t " +:+ name +:+ " = {" +:+ LF
  +:+ "  &" +:+ name +:+ "_widths," +:+ LF
  +:+ "  &" +:+ name +:+ "_heights," +:+ LF
  +:+ "  &" +:+ name +:+ "_x_offsets," +:+ LF
  +:+ "  &" +:+ name +:+ "_y_offsets," +:+ LF
  +:+ "  &" +:+ name +:+ "_durations," +:+ LF
  +:+ "  &" +:+ name +:+ "_rgba," +:+ LF
  +:+ "  " +:+ integer_to_string (length_of frames) +:+ LF
  +:+ "};" +:+ LF
  +:+ LF
  +:+ String.concat LF
        (List.map
           (fun tag =>
              "const u16_t " +:+ Tag.name tag +:+ "_indices["
              +:+ integer_to_string (length_of (Tag.indices tag))
              +:+ "] = { "
              +:+ String.concat ", "
                    (List.map integer_to_string (Tag.indices tag))
              +:+ " };")
           tags)
  +:+ LF
  +:+ LF
  +:+ String.concat (LF +:+ LF)
        (List.map
           (fun tag =>
              "const sprite_animation_t " +:+ Tag.name tag +:+ " = {" +:+ LF
              +:+ "  &" +:+ name +:+ "," +:+ LF
              +:+ "  &" +:+ Tag.name tag +:+ "_indices," +:+ LF
              +:+ "  " +:+ integer_to_string (length_of (Tag.indices tag))
              +:+ "," +:+ LF
              +:+ "  " +:+ integer_to_string (Tag.duration tag) +:+ LF
              +:+ "};")
           tags)
  +:+ LF.

(** A file handed to [promises.writeFile]. *)
Record File : Type := {
  file_path : string;
  file_content : string
}.

(** Lines 187-448: from the parsed data and the decoded sheet to the
    two files written, in the order they are written. *)
Definition main (data : Data.t) (png : Png.t) : result (list File) :=
  frames ← frames (refreshRate commandLineArguments) png data;
  tags ← tags frames data;
  let name :=
    Identifier.convertFileNameToIdentifier
      (parse_name (asepriteFile commandLineArguments)) in
  let headerFile := output commandLineArguments +:+ ".h" in
  let sourceFile := output commandLineArguments +:+ ".c" in
  Ok [ {| file_path := headerFile; file_content := header name tags |};
       {| file_path := sourceFile;
          file_content := source name frames tags |} ].

End Emitter.

(** ** Vocabulary of the statements about the emitted text *)

(** [text] begins with [needle]. *)
Fixpoint starts_with (needle text : string) : bool :=
  match needle, text with
  | EmptyString, _ => true
  | String a needle, String b text => (a =? b)%char && starts_with needle text
  | String _ _, EmptyString => false
  end.

(** [needle] occurs somewhere in [text]. *)
Fixpoint contains (needle text : string) : bool :=
  starts_with needle text
  || match text with
     | EmptyString => false
     | String _ text => contains needle text
     end.

(** The number of positions of [text] at which [needle] starts. *)
Fixpoint occurrences (needle text : string) : nat :=
  ((if starts_with needle text then 1 else 0)
   + match text with
     | EmptyString => 0
     | String _ text => occurrences needle text
     end)%nat.

(** ** Vocabulary of the statements about frames *)

(** Both offsets of a frame lie in [-32768, 32767]. *)
Definition offsets_within_limits (frame : Data.Frame) : bool :=
  let xOffset :=
    offset (Data.spriteSourceSize_x frame) (Data.sourceSize_w frame) in
  let yOffset :=
    offset (Data.spriteSourceSize_y frame) (Data.sourceSize_h frame) in
  Qle_bool xOffset (inject_Z 32767) && Qle_bool (inject_Z (-32768)) xOffset
  && Qle_bool yOffset (inject_Z 32767) && Qle_bool (inject_Z (-32768)) yOffset.

(** The frame passes every geometry check. *)
Definition within_limits (frame : Data.Frame) : bool :=
  (Data.frame_w frame <=? 65535) && (Data.frame_h frame <=? 65535)
  && offsets_within_limits frame.

(** The pixels the specification asks for, in its words: for every pixel
    of the frame's rectangle, row-major from its top-left corner, the
    three colour bytes floor(raw * alpha / 255) of the sheet pixel and
    then 255 - alpha; bytes missing from the sheet count as 0. *)
Definition specified_pixel (png : Png.t) (frame : Data.Frame) (x y : Z)
    : list Z :=
  let at_channel channel :=
    default 0
      (Js.get (Png.data png)
         ((y + Data.frame_y frame) * Png.width png * 4
          + (x + Data.frame_x frame) * 4 + channel)) in
  let alpha := at_channel 3 in
  [at_channel 0 * alpha / 255; at_channel 1 * alpha / 255;
   at_channel 2 * alpha / 255; 255 - alpha].

Definition specified_pixels (png : Png.t) (frame : Data.Frame) : list Z :=
  y ← seqZ 0 (Data.frame_h frame);
  x ← seqZ 0 (Data.frame_w frame);
  specified_pixel png frame x y.

(** ** Vocabulary of the statements about tags *)


(** The sum the specification speaks of: the ticks of the frames at the
    given indices, one summand per occurrence. *)
Definition ticks_at (frames : list Frame.t) (index : Z) : option Z :=
  Frame.duration <$> Js.get frames index.

Definition total (durations : list Z) : Z := foldr Z.add 0 durations.


(** ** Sample inputs *)

(** A derived one-pixel frame that lasts [ticks] ticks. *)
Definition still (ticks : Z) : Frame.t :=
  {| Frame.width := 1; Frame.height := 1;
     Frame.xOffset := 0%Q; Frame.yOffset := 0%Q;
     Frame.duration := ticks; Frame.rgba := [0; 0; 0; 255] |}.

(** A sheet of two pixels side by side: a half-transparent one and an
    opaque one. *)
Definition two_pixel_sheet : Png.t :=
  {| Png.width := 2; Png.height := 1;
     Png.data := [200; 100; 50; 128; 10; 20; 30; 255] |}.

(** A frame of duration [duration] milliseconds whose rectangle of
    [w] by [h] pixels starts at the top-left corner of the sheet, on a
    canvas of the same size. *)
Definition corner_frame (w h duration : Z) : Data.Frame :=
  {| Data.frame_x := 0; Data.frame_y := 0;
     Data.frame_w := w; Data.frame_h := h;
     Data.spriteSourceSize_x := 0; Data.spriteSourceSize_y := 0;
     Data.sourceSize_w := w; Data.sourceSize_h := h;
     Data.duration := duration |}.

(** The arguments of the repository's successful test scenarios, below
    a project directory. *)
Definition example_arguments : CommandLineArguments :=
  {| asepriteFile := "/project/path/to/example/input/aseprite-file.ase";
     neomuraHeaderFile :=
       "/project/path/to/fictional/neomura/header/file/from/submodules.h";
     neomuraSpritesHeaderFile :=
       "/project/path/to/fictional/neomura/sprites/header/file/from/submodules.h";
     output := "/project/path/to/nested/output/file";
     refreshRate := 60 |}.

(** Two frames cut from [two_pixel_sheet] and two tags over them. *)
Definition example_data : Data.t :=
  {| Data.frames := [corner_frame 1 1 50; corner_frame 2 1 100];
     Data.frameTags :=
       [ Data.Build_FrameTag "Walk Left" 0 1 Data.pingpong;
         Data.Build_FrameTag "idle" 0 0 Data.forward ] |}.

(** The scenarios of [src/convert-file-name-to-identifier/unit.ts]. *)
Definition TAB : string := String "009" EmptyString.
Definition CR : string := String "013" EmptyString.

Definition unit_scenarios : list (string * string) :=
  [ ("test", "test");
    ("Test", "test");
    ("  " +:+ LF +:+ " " +:+ CR +:+ " " +:+ TAB +:+ "  Test String  "
     +:+ LF +:+ " " +:+ TAB +:+ " " +:+ CR +:+ " With TXT White Space "
     +:+ TAB +:+ " " +:+ TAB +:+ " " +:+ CR +:+ " " +:+ LF +:+ "   ",
     "test_string_with_txt_white_space");
    ("test_snake_cased_string", "test_snake_cased_string");
    ("test-kebab-cased-string", "test_kebab_cased_string");
    ("TEST_SNAKE_CASED_STRING", "test_snake_cased_string");
    ("TEST-KEBAB-CASED-STRING", "test_kebab_cased_string");
    ("_test_snake_cased_string", "test_snake_cased_string");
    ("-test-kebab-cased-string", "test_kebab_cased_string");
    ("TestPascalCasedTXTString", "test_pascal_cased_txt_string");
    ("testCamelCasedTXTString", "test_camel_cased_txt_string");
    ("TestPascalCasedStringTXT", "test_pascal_cased_string_txt");
    ("testCamelCasedStringTXT", "test_camel_cased_string_txt");
    ("TXTTestPascalCasedString", "txt_test_pascal_cased_string");
    ("TestPascalCasedTXString", "test_pascal_cased_tx_string");
    ("testCamelCasedTXString", "test_camel_cased_tx_string");
    ("TestPascalCasedStringTX", "test_pascal_cased_string_tx");
    ("testCamelCasedStringTX", "test_camel_cased_string_tx");
    ("TXTestPascalCasedString", "tx_test_pascal_cased_string");
    ("TestPascalCasedTString", "test_pascal_cased_t_string");
    ("testCamelCasedTString", "test_camel_cased_t_string");
    ("TestPascalCasedStringT", "test_pascal_cased_string_t");
    ("testCamelCasedStringT", "test_camel_cased_string_t");
    ("TTestPascalCasedString", "t_test_pascal_cased_string");
    ("TXT", "txt");
    ("A B C", "a_b_c") ].
(** ** The loops of the tag expander *)

Lemma seqZ_snoc m n : 0 <= n -> seqZ m (n + 1) = seqZ m n ++ [m + n].
Proof.
  intros Hn. rewrite seqZ_app by lia. f_equal.
Qed.

Section PushLoop.

Variable test : Z -> bool.
Variable bound : Z.

(** A loop counting up to [bound] (exclusive) pushes the ascending
    range and stops by its test. *)
Lemma push_loop_up fuel index indices :
  (forall i, test i = (i <? bound)) ->
  (Z.to_nat (bound - index) <= fuel)%nat ->
  push_loop fuel test Z.succ index indices
  = indices ++ seqZ index (bound - index).
Proof.
  intros Htest. revert index indices.
  induction fuel as [|fuel IH]; intros index indices Hfuel; simpl.
  - rewrite seqZ_nil by lia. by rewrite app_nil_r.
  - rewrite Htest. destruct (Z.ltb_spec index bound) as [Hlt|Hge].
    + rewrite IH by lia. rewrite (seqZ_cons index) by lia.
      rewrite <- app_assoc. simpl. do 3 f_equal. lia.
    + rewrite seqZ_nil by lia. by rewrite app_nil_r.
Qed.

(** A loop counting down to [bound] (exclusive) pushes the descending
    range and stops by its test. *)
Lemma push_loop_down fuel index indices :
  (forall i, test i = (bound <? i)) ->
  (Z.to_nat (index - bound) <= fuel)%nat ->
  push_loop fuel test Z.pred index indices
  = indices ++ reverse (seqZ (bound + 1) (index - bound)).
Proof.
  intros Htest. revert index indices.
  induction fuel as [|fuel IH]; intros index indices Hfuel; simpl.
  - rewrite seqZ_nil by lia. by rewrite app_nil_r.
  - rewrite Htest. destruct (Z.ltb_spec bound index) as [Hlt|Hge].
    + rewrite IH by lia.
      replace (index - bound) with ((Z.pred index - bound) + 1) by lia.
      rewrite seqZ_snoc by lia. rewrite reverse_snoc.
      rewrite <- app_assoc. simpl. do 2 f_equal. lia.
    + rewrite seqZ_nil by lia. by rewrite app_nil_r.
Qed.

End PushLoop.

(** The index sequences in closed form, for any [from] and [to]. *)
Lemma tag_indices_forward name from to :
  tag_indices {| Data.name := name; Data.from := from; Data.to := to;
                 Data.direction := Data.forward |}
  = Ok (seqZ from (to - from + 1)).
Proof.
  unfold tag_indices; simpl.
  rewrite (push_loop_up _ (to + 1)).
  - simpl. do 2 f_equal. lia.
  - intros i. apply eq_iff_eq_true. rewrite Z.leb_le, Z.ltb_lt. lia.
  - unfold range_fuel. lia.
Qed.

Lemma tag_indices_reverse name from to :
  tag_indices {| Data.name := name; Data.from := from; Data.to := to;
                 Data.direction := Data.reverse |}
  = Ok (reverse (seqZ from (to - from + 1))).
Proof.
  unfold tag_indices; simpl.
  rewrite (push_loop_down _ (from - 1)).
  - simpl. do 3 f_equal; lia.
  - intros i. apply eq_iff_eq_true. rewrite Z.leb_le, Z.ltb_lt. lia.
  - unfold range_fuel. lia.
Qed.

Lemma tag_indices_pingpong name from to :
  tag_indices {| Data.name := name; Data.from := from; Data.to := to;
                 Data.direction := Data.pingpong |}
  = Ok (seqZ from (to - from) ++ reverse (seqZ (from + 1) (to - from))).
Proof.
  unfold tag_indices; simpl.
  rewrite (push_loop_up _ to), (push_loop_down _ from);
    try done; unfold range_fuel; lia.
Qed.




Lemma sum_durations_total frames indices : forall duration durations,
  mapM (ticks_at frames) indices = Some durations ->
  sum_durations frames duration indices = Ok (duration + total durations).
Proof.
  induction indices as [|index indices IH]; intros duration durations H.
  - injection H as <-. simpl. f_equal. lia.
  - simpl in H.
    destruct (ticks_at frames index) as [d|] eqn:Hd; simpl in H; [|done].
    destruct (mapM (ticks_at frames) indices) as [rest|] eqn:Hrest;
      simpl in H; [|done].
    injection H as <-. unfold ticks_at in Hd. simpl. unfold add_duration.
    destruct (Js.get frames index) as [frame|]; simpl in Hd; [|done].
    injection Hd as <-. simpl. rewrite (IH _ rest) by done.
    simpl. f_equal. lia.
Qed.

Lemma sum_durations_undefined frames indices : forall duration index,
  index ∈ indices -> Js.get frames index = None ->
  sum_durations frames duration indices = Throw TypeError.
Proof.
  induction indices as [|i indices IH]; intros duration index Hin Hget.
  - by apply elem_of_nil in Hin.
  - simpl. unfold add_duration.
    destruct (Js.get frames i) as [frame|] eqn:Hi; [|done]. simpl.
    apply elem_of_cons in Hin as [->|Hin]; [congruence|].
    by apply (IH _ index).
Qed.

Lemma get_beyond_length {A} (array : list A) index :
  Z.of_nat (length array) <= index -> Js.get array index = None.
Proof.
  intros H. unfold Js.get. destruct (Z.ltb_spec index 0); [done|].
  apply lookup_ge_None. lia.
Qed.

(** ** Claims about the tag expander *)




(** C3 (amended).  A resolved tag has at least one index when
    [from <= to] and the direction is forward or reverse (exactly
    to - from + 1 indices), and when [from < to] and the direction is
    pingpong (exactly 2 * (to - from) indices). *)
Theorem resolved_indices_nonempty frames tag resolved :
  Data.from tag <= Data.to tag ->
  (Data.direction tag = Data.pingpong -> Data.from tag < Data.to tag) ->
  expand_tag frames tag = Ok resolved ->
  (1 <= length (Tag.indices resolved))%nat
  /\ Z.of_nat (length (Tag.indices resolved))
     = match Data.direction tag with
       | Data.pingpong => 2 * (Data.to tag - Data.from tag)
       | _ => Data.to tag - Data.from tag + 1
       end.
Proof.
  destruct tag as [name from to direction]. simpl. intros Hle Hlt.
  unfold expand_tag.
  destruct direction as [| | |other];
    [rewrite tag_indices_forward | rewrite tag_indices_reverse
    | rewrite tag_indices_pingpong | done].
  all: simpl; destruct (sum_durations _ _ _) as [duration|]; [|done].
  all: simpl; destruct (65535 <? duration); [done|].
  all: intros [= <-]; simpl.
  all: rewrite ?length_app, ?length_reverse, !length_seqZ.
  all: try specialize (Hlt eq_refl); lia.
Qed.

Lemma resolved_indices_nonempty_witness :
  (1 <= length [0])%nat /\ Z.of_nat (length [0]) = 0 - 0 + 1.
Proof.
  apply (resolved_indices_nonempty [still 6]
           (Data.Build_FrameTag "idle" 0 0 Data.forward)
           {| Tag.name := "idle"; Tag.indices := [0]; Tag.duration := 6 |}).
  - simpl. lia.
  - simpl. discriminate.
  - reflexivity.
Defined.

(** C3 as stated fails: a tag whose range runs backwards is accepted with
    no index at all, and so is a pingpong tag over a single frame. *)
Lemma resolved_indices_can_be_empty :
  expand_tag [still 6] (Data.Build_FrameTag "idle" 1 0 Data.forward)
  = Ok {| Tag.name := "idle"; Tag.indices := []; Tag.duration := 0 |}
  /\ expand_tag [still 6] (Data.Build_FrameTag "idle" 0 0 Data.pingpong)
     = Ok {| Tag.name := "idle"; Tag.indices := []; Tag.duration := 0 |}
  /\ ~ (1 <= length (@nil Z))%nat.
Proof. repeat split. simpl. lia. Qed.

(** A pingpong tag over a single frame resolves to no frame at all,
    whatever the frame table is. *)
Lemma pingpong_single_frame_empty frames name index :
  expand_tag frames (Data.Build_FrameTag name index index Data.pingpong)
  = Ok {| Tag.name := name; Tag.indices := []; Tag.duration := 0 |}.
Proof.
  unfold expand_tag. rewrite tag_indices_pingpong.
  rewrite Z.sub_diag, !seqZ_nil by lia. reflexivity.
Qed.

(** C7.  Let [total] be the sum of the ticks of the frames at the
    indices of the resolved sequence, one summand per occurrence.  A tag
    whose total is at most 65535 (in particular exactly 65535) succeeds
    with that total; a tag whose total exceeds 65535 fails with the tag
    duration limit error, which carries the tag's name and the total. *)
Theorem tag_duration_limit frames tag indices durations :
  tag_indices tag = Ok indices ->
  mapM (ticks_at frames) indices = Some durations ->
  (total durations <= 65535 ->
   expand_tag frames tag
   = Ok {| Tag.name := Data.name tag;
           Tag.indices := indices;
           Tag.duration := total durations |})
  /\ (65535 < total durations ->
      expand_tag frames tag
      = Throw (TagDurationLimit (Data.name tag) (total durations))
      /\ classify (TagDurationLimit (Data.name tag) (total durations))
         = Some TagDurationLimitExceeded).
Proof.
  intros Hindices Hticks. unfold expand_tag. rewrite Hindices. simpl.
  rewrite (sum_durations_total _ _ 0 durations Hticks).
  rewrite Z.add_0_l. simpl.
  split; intros Hlimit.
  - destruct (Z.ltb_spec 65535 (total durations)); [lia|reflexivity].
  - destruct (Z.ltb_spec 65535 (total durations)); [split; reflexivity|lia].
Qed.

Lemma tag_duration_limit_witness :
  expand_tag [still 65000; still 535]
    (Data.Build_FrameTag "long" 0 1 Data.forward)
  = Ok {| Tag.name := "long"; Tag.indices := [0; 1];
          Tag.duration := 65535 |}
  /\ expand_tag [still 65000; still 536]
       (Data.Build_FrameTag "overly_long" 0 1 Data.reverse)
     = Throw (TagDurationLimit "overly_long" 65536)
  /\ expand_tag [still 30000; still 20000; still 10000]
       (Data.Build_FrameTag "overly_long" 0 2 Data.pingpong)
     = Throw (TagDurationLimit "overly_long" 80000).
Proof.
  split; [|split].
  - apply (tag_duration_limit [still 65000; still 535]
             (Data.Build_FrameTag "long" 0 1 Data.forward)
             [0; 1] [65000; 535]); [reflexivity | reflexivity |].
    vm_compute. discriminate.
  - apply (tag_duration_limit [still 65000; still 536]
             (Data.Build_FrameTag "overly_long" 0 1 Data.reverse)
             [1; 0] [536; 65000]); [reflexivity | reflexivity |].
    reflexivity.
  - apply (tag_duration_limit [still 30000; still 20000; still 10000]
             (Data.Build_FrameTag "overly_long" 0 2 Data.pingpong)
             [0; 1; 2; 1] [30000; 20000; 10000; 20000]);
      [reflexivity | reflexivity |].
    reflexivity.
Defined.

(** C9.  The tag expander never compares [from] and [to] with the
    number of frames: every tag whose sequence contains [to] (forward or
    reverse with [from <= to], pingpong with [from < to]) and whose [to]
    is at or beyond the number of derived frames reads
    [frames[index]] past the end, and what is thrown is the runtime's
    [TypeError], which no class of the error taxonomy covers. *)
Theorem tag_beyond_frames_type_error frames tag :
  Z.of_nat (length frames) <= Data.to tag ->
  match Data.direction tag with
  | Data.forward | Data.reverse => Data.from tag <= Data.to tag
  | Data.pingpong => Data.from tag < Data.to tag
  | Data.unexpected _ => False
  end ->
  Js.get frames (Data.to tag) = None
  /\ expand_tag frames tag = Throw TypeError
  /\ classify TypeError = None.
Proof.
  destruct tag as [name from to direction]. simpl. intros Hbeyond Hrange.
  pose proof (get_beyond_length frames to Hbeyond) as Hget.
  split; [exact Hget|]. split; [|reflexivity].
  unfold expand_tag.
  destruct direction as [| | |other];
    [rewrite tag_indices_forward | rewrite tag_indices_reverse
    | rewrite tag_indices_pingpong | done].
  all: simpl; rewrite (sum_durations_undefined _ _ 0 to); try done.
  - apply elem_of_seqZ. lia.
  - apply elem_of_reverse, elem_of_seqZ. lia.
  - apply elem_of_app. right. apply elem_of_reverse, elem_of_seqZ. lia.
Qed.

Lemma tag_beyond_frames_type_error_witness :
  Js.get [still 6] 1 = None
  /\ expand_tag [still 6] (Data.Build_FrameTag "walk" 0 1 Data.forward)
     = Throw TypeError
  /\ classify TypeError = None.
Proof.
  apply (tag_beyond_frames_type_error [still 6]
           (Data.Build_FrameTag "walk" 0 1 Data.forward)).
  - simpl. lia.
  - simpl. lia.
Defined.

(** ** Claims about the frame deriver *)


(** A frame that is derived carries the whole sheet as its pixels. *)
Lemma derive_frame_rgba refreshRate png index frame derived :
  derive_frame refreshRate png index frame = Ok derived ->
  Frame.rgba derived = Png.data png.
Proof.
  unfold derive_frame. cbv zeta.
  repeat (match goal with
          | |- context [if ?c then _ else _] => destruct c
          end; [done|]).
  destruct (Js.alloc _); [|done]. simpl. by intros [= <-].
Qed.

(** C1 at a concrete input: a one-pixel frame cut from a sheet of two
    pixels.  The specification asks for the four bytes
    [100; 50; 25; 127]; the derived frame carries the eight untouched
    bytes of the whole sheet, because line 298 returns [png.data] and
    not the buffer filled by the loops. *)
Lemma derived_pixels_are_the_raw_sheet :
  derive_frame 60 two_pixel_sheet 0 (corner_frame 1 1 50)
  = Ok {| Frame.width := 1; Frame.height := 1;
          Frame.xOffset := (-1 # 2)%Q; Frame.yOffset := (-1 # 2)%Q;
          Frame.duration := 3;
          Frame.rgba := [200; 100; 50; 128; 10; 20; 30; 255] |}
  /\ specified_pixels two_pixel_sheet (corner_frame 1 1 50)
     = [100; 50; 25; 127]
  /\ length [200; 100; 50; 128; 10; 20; 30; 255] <> Z.to_nat (1 * 1 * 4).
Proof. split; [|split]; [reflexivity | reflexivity | vm_compute; lia]. Qed.

(** The buffer the loops fill is not the specified one either, as soon
    as a frame has more than one pixel: the index
    [y * frame.frame.w + x + channel] lacks the factor 4, so the bytes
    of neighbouring pixels land on each other. *)
Lemma local_buffer_overlaps :
  fill_rgba two_pixel_sheet (corner_frame 2 1 50) (replicate 8 0)
  = [100; 10; 20; 30; 0; 0; 0; 0]
  /\ specified_pixels two_pixel_sheet (corner_frame 2 1 50)
     = [100; 50; 25; 127; 10; 20; 30; 0].
Proof. split; reflexivity. Qed.

(** [Math.floor(raw * (alpha / 255))] in binary64 is not always the
    floor of the exact quotient: 51 * 155 / 255 is exactly 31, but the
    rounded coefficient gives 30.999999999999996. *)
Lemma premultiply_rounds_below :
  Js.to_uint8
    (Js.floor (Js.mul (Js.of_Z 51) (Js.div (Js.of_Z 155) (Js.of_Z 255))))
  = 30
  /\ 51 * 155 / 255 = 31.
Proof. split; reflexivity. Qed.






(** ** The identifier normaliser *)

Section IdentifierFacts.

Import Identifier.
Local Open Scope string_scope.

Lemma plain_not_upper c : is_plain c = true -> is_upper c = false.
Proof. destruct c as [[] [] [] [] [] [] [] []]; vm_compute; congruence. Qed.

Lemma plain_not_separator c : is_plain c = true -> is_separator c = false.
Proof. destruct c as [[] [] [] [] [] [] [] []]; vm_compute; congruence. Qed.

Lemma to_lower_plain c : is_plain c = true -> to_lower c = c.
Proof. intros H. unfold to_lower. by rewrite (plain_not_upper c H). Qed.

Lemma lowercase_plain word : all is_plain word = true -> lowercase word = word.
Proof.
  induction word as [|c word IH]; [done|]. simpl.
  intros [Hc Hword]%andb_true_iff.
  by rewrite (to_lower_plain c Hc), IH.
Qed.

(** A chunk without capitals has no casing transition. *)
Lemma split_case_plain word : forall previous,
  all is_plain word = true -> split_case previous word = [word].
Proof.
  induction word as [|c word IH]; intros previous; [done|]. simpl.
  intros [Hc Hword]%andb_true_iff. rewrite (IH c Hword).
  unfold boundary. by rewrite (plain_not_upper c Hc).
Qed.

Lemma sub_words_plain word :
  nonempty word = true -> all is_plain word = true ->
  sub_words word = [word].
Proof.
  destruct word as [|c word]; [done|]. simpl.
  intros _ [Hc Hword]%andb_true_iff. by rewrite (split_case_plain _ c Hword).
Qed.

Lemma concat_cons_char sep c word words :
  String.concat sep (String c word :: words)
  = String c (String.concat sep (word :: words)).
Proof. by destruct words. Qed.

(** What the scan accepts splits, at its underscores, into nonempty
    plain words that join back to it. *)
Lemma normalized_from_split s : forall after_underscore,
  normalized_from after_underscore s = true ->
  exists word words,
    split_on is_separator s = word :: words
    /\ (after_underscore = true -> nonempty word = true)
    /\ forallb nonempty words = true
    /\ forallb (all is_plain) (word :: words) = true
    /\ String.concat "_" (word :: words) = s.
Proof.
  induction s as [|c s IH]; intros after_underscore; simpl.
  - intros H. exists EmptyString, []. repeat split; try done.
    intros ->. done.
  - destruct (Ascii.eqb_spec c "_"%char) as [->|Hc].
    + intros [Hafter Hs]%andb_true_iff.
      destruct (IH true Hs) as (word & words & Hsplit & Hword & Hwords
                                & Hplain & Hjoin).
      exists EmptyString, (word :: words).
      change (is_separator "_") with true. cbv iota.
      rewrite Hsplit. repeat split.
      * intros ->. done.
      * simpl. by rewrite Hword, Hwords.
      * exact Hplain.
      * change (String.concat "_" (EmptyString :: word :: words))
          with (String "_"%char (String.concat "_" (word :: words))).
        by rewrite Hjoin.
    + intros [Hplain Hs]%andb_true_iff.
      destruct (IH false Hs) as (word & words & Hsplit & _ & Hwords
                                 & Hplains & Hjoin).
      exists (String c word), words.
      rewrite (plain_not_separator c Hplain), Hsplit. repeat split.
      * exact Hwords.
      * simpl in *. by rewrite Hplain.
      * change (String.concat "_" (String c word :: words) = String c s).
        by rewrite concat_cons_char, Hjoin.
Qed.

Lemma filter_all {A} (p : A -> bool) l :
  forallb p l = true -> List.filter p l = l.
Proof.
  induction l as [|a l IH]; [done|]. simpl.
  intros [Ha Hl]%andb_true_iff. by rewrite Ha, IH.
Qed.

Lemma flat_map_sub_words_plain words :
  forallb nonempty words = true ->
  forallb (all is_plain) words = true ->
  List.map lowercase (List.flat_map sub_words words) = words.
Proof.
  induction words as [|word words IH]; [done|]. simpl.
  intros [Hword Hwords]%andb_true_iff [Hplain Hplains]%andb_true_iff.
  rewrite (sub_words_plain word Hword Hplain). simpl.
  by rewrite (lowercase_plain word Hplain), IH.
Qed.

(** C10.  The identifier normaliser returns every already normalised
    identifier (lowercase [a-z0-9]+ words joined by single underscores,
    no leading, trailing or repeated underscore) unchanged. *)
Theorem convertFileNameToIdentifier_normalized s :
  is_normalized s = true -> convertFileNameToIdentifier s = s.
Proof.
  destruct s as [|c s]; [done|].
  unfold is_normalized. intros H.
  destruct (normalized_from_split _ true H)
    as (word & words & Hsplit & Hword & Hwords & Hplain & Hjoin).
  unfold convertFileNameToIdentifier, chunks. rewrite Hsplit.
  assert (Hall : forallb nonempty (word :: words) = true).
  { simpl. by rewrite Hword, Hwords. }
  rewrite (filter_all _ _ Hall).
  by rewrite (flat_map_sub_words_plain _ Hall Hplain).
Qed.

Lemma convertFileNameToIdentifier_normalized_witness :
  convertFileNameToIdentifier "test_snake_cased_string"
  = "test_snake_cased_string".
Proof.
  apply (convertFileNameToIdentifier_normalized "test_snake_cased_string").
  reflexivity.
Defined.

(** Conversely, every nonempty list of nonempty plain words joined by
    single underscores is accepted by the scan. *)
Lemma plain_not_underscore c : is_plain c = true -> (c =? "_")%char = false.
Proof. destruct c as [[] [] [] [] [] [] [] []]; vm_compute; congruence. Qed.

Lemma joined_words_normalized_from words : forall word after_underscore,
  (after_underscore = true -> nonempty word = true) ->
  all is_plain word = true ->
  forallb nonempty words = true ->
  forallb (all is_plain) words = true ->
  normalized_from after_underscore (String.concat "_" (word :: words))
  = true.
Proof.
  induction words as [|next words IH].
  - induction word as [|c word IHword]; intros after Hfirst Hplain _ _.
    + destruct after; [by specialize (Hfirst eq_refl)|done].
    + simpl in *. apply andb_true_iff in Hplain as [Hc Hword].
      rewrite (plain_not_underscore c Hc), Hc. simpl.
      apply IHword; done.
  - induction word as [|c word IHword];
      intros after Hfirst Hplain Hwords Hplains.
    + destruct after; [by specialize (Hfirst eq_refl)|].
      simpl in Hwords, Hplains.
      apply andb_true_iff in Hwords as [Hnext Hwords].
      apply andb_true_iff in Hplains as [Hnextplain Hplains].
      change (normalized_from true (String.concat "_" (next :: words))
              = true).
      by apply IH.
    + rewrite concat_cons_char. simpl in Hplain |- *.
      apply andb_true_iff in Hplain as [Hc Hword].
      rewrite (plain_not_underscore c Hc), Hc. simpl.
      apply IHword; done.
Qed.

Lemma joined_words_normalized word words :
  forallb nonempty (word :: words) = true ->
  forallb (all is_plain) (word :: words) = true ->
  is_normalized (String.concat "_" (word :: words)) = true.
Proof.
  intros Hnonempty Hplain. simpl in Hnonempty, Hplain.
  apply andb_true_iff in Hnonempty as [Hword Hwords].
  apply andb_true_iff in Hplain as [Hplain Hplains].
  unfold is_normalized.
  destruct (String.concat "_" (word :: words)) eqn:Hjoin; [done|].
  rewrite <- Hjoin. by apply joined_words_normalized_from.
Qed.

(** The model passes every scenario of the repository's unit test. *)
Lemma unit_scenarios_pass :
  Forall (fun scenario =>
            convertFileNameToIdentifier (fst scenario) = snd scenario)
    unit_scenarios.
Proof. repeat constructor. Qed.

End IdentifierFacts.

(** ** The emitted text *)

Lemma append_assoc (a b c : string) : (a +:+ b) +:+ c = a +:+ b +:+ c.
Proof.
  induction a as [|x a IH]; [done|].
  change (String x ((a +:+ b) +:+ c) = String x (a +:+ b +:+ c)).
  by f_equal.
Qed.

Lemma starts_with_spec needle : forall text,
  starts_with needle text = true <-> exists after, text = needle +:+ after.
Proof.
  induction needle as [|a needle IH]; intros text; simpl.
  - split; [|done]. intros _. by exists text.
  - destruct text as [|b text].
    + split; [done|]. by intros [after H].
    + rewrite andb_true_iff, IH. split.
      * intros [->%Ascii.eqb_eq [after ->]]. by exists after.
      * intros [after [= -> ->]]. split; [apply Ascii.eqb_refl|by exists after].
Qed.

Lemma contains_spec needle : forall text,
  contains needle text = true
  <-> exists before after, text = before +:+ needle +:+ after.
Proof.
  intros text. split.
  - induction text as [|c text IH]; simpl; rewrite orb_true_iff.
    + intros [H|H]; [|done]. apply starts_with_spec in H as [after ->].
      by exists EmptyString, after.
    + intros [H|H].
      * apply starts_with_spec in H as [after ->].
        by exists EmptyString, after.
      * destruct (IH H) as (before & after & ->).
        by exists (String c before), after.
  - intros (before & after & ->).
    induction before as [|c before IH]; simpl.
    + assert (H : starts_with needle (needle +:+ after) = true)
        by (apply starts_with_spec; by exists after).
      destruct (needle +:+ after); simpl; by rewrite H.
    + rewrite IH. apply orb_true_r.
Qed.

Lemma contains_append_r needle before text :
  contains needle text = true -> contains needle (before +:+ text) = true.
Proof.
  rewrite !contains_spec. intros (b & a & ->).
  exists (before +:+ b), a. by rewrite append_assoc.
Qed.

Lemma contains_append_l needle text after :
  contains needle text = true -> contains needle (text +:+ after) = true.
Proof.
  rewrite !contains_spec. intros (b & a & ->).
  exists b, (a +:+ after). by rewrite !append_assoc.
Qed.

Lemma contains_refl text : contains text text = true.
Proof.
  apply contains_spec. exists EmptyString, EmptyString.
  change (text = text +:+ EmptyString).
  induction text as [|c text IH]; [done|].
  change (String c text = String c (text +:+ EmptyString)). by f_equal.
Qed.

Lemma contains_concat sep x l :
  In x l -> contains x (String.concat sep l) = true.
Proof.
  induction l as [|y l IH]; [done|]. intros [->|Hin].
  - destruct l; [apply contains_refl|].
    apply contains_append_l, contains_refl.
  - destruct l as [|z l]; [done|].
    change (contains x (y +:+ sep +:+ String.concat sep (z :: l)) = true).
    by apply contains_append_r, contains_append_r, IH.
Qed.

(** Mapping a throwing callback keeps the order of the elements: each
    result comes from the element at the same position. *)
Lemma map_indexed_Forall2 {A B} (f : Z -> A -> result B) array :
  forall index results,
    map_indexed f index array = Ok results ->
    Forall2 (fun a b => exists i, f i a = Ok b) array results.
Proof.
  induction array as [|a array IH]; intros index results; simpl.
  - intros [= <-]. constructor.
  - destruct (f index a) as [b|] eqn:Hb; [|done]. simpl.
    destruct (map_indexed f (index + 1) array) as [bs|] eqn:Hbs; [|done].
    simpl. intros [= <-]. constructor; [by exists index|by eapply IH].
Qed.

Lemma expand_tag_name frames tag resolved :
  expand_tag frames tag = Ok resolved -> Tag.name resolved = Data.name tag.
Proof.
  unfold expand_tag. destruct (tag_indices tag); [|done]. simpl.
  destruct (sum_durations _ _ _); [|done]. simpl.
  destruct (_ <? _); [done|]. by intros [= <-].
Qed.




(** Walks down a template to the list of lines joined in it that [tac]
    can find the wanted text in. *)
Ltac find_in_text tac :=
  first [ apply contains_append_l; solve [tac]
        | apply contains_append_r; find_in_text tac ].





(** The source always starts by including a header named after the
    sprite file, whatever the output path is. *)
Lemma source_starts_with_include {P : Path} commandLineArguments name frames
    tags :
  starts_with
    ("#include " +:+ QUOTE
     +:+ basename (asepriteFile commandLineArguments) +:+ ".h" +:+ QUOTE
     +:+ LF)
    (source commandLineArguments name frames tags) = true.
Proof.
  apply starts_with_spec. eexists. unfold source.
  rewrite !append_assoc. reflexivity.
Qed.

(** C4 at a concrete input, the arguments of the repository's own
    successful test scenarios: the header is written to
    [.../nested/output/file.h], but the one [#include] of the source
    names [aseprite-file.ase.h], a file that is not produced. *)
Lemma source_includes_the_sprite_file_name :
  exists header_text source_text,
    main (P := Posix.path) example_arguments example_data two_pixel_sheet
    = Ok [ {| file_path := "/project/path/to/nested/output/file.h";
              file_content := header_text |};
           {| file_path := "/project/path/to/nested/output/file.c";
              file_content := source_text |} ]
    /\ starts_with
         ("#include " +:+ QUOTE +:+ "aseprite-file.ase.h" +:+ QUOTE +:+ LF)
         source_text = true
    /\ occurrences "#include" source_text = 1%nat
    /\ Posix.basename "/project/path/to/nested/output/file.h" = "file.h"
    /\ "file.h" <> "aseprite-file.ase.h".
Proof.
  eexists. eexists. split; [vm_compute; reflexivity|].
  repeat split; try (vm_compute; reflexivity). discriminate.
Qed.

(** ** The messages of the repository's failing test scenarios *)

Lemma incompatible_duration_message :
  derive_frame 60 two_pixel_sheet 7 (corner_frame 1 1 51)
  = Throw (IncompatibleDuration 8 51 60)
  /\ message (IncompatibleDuration 8 51 60)
     = Some ("frame 8's duration of 51 milliseconds is incompatible "
             +:+ "with the refresh rate of 60 hertz.").
Proof. split; reflexivity. Qed.

Lemma too_many_frames_in_tag_message :
  expand_tag [still 30000; still 5538; still 30000]
    (Data.Build_FrameTag "overly_long" 0 2 Data.forward)
  = Throw (TagDurationLimit "overly_long" 65538)
  /\ message (TagDurationLimit "overly_long" 65538)
     = Some ("tag " +:+ QUOTE +:+ "overly_long" +:+ QUOTE
             +:+ "'s duration of 65538 frames is longer than the limit "
             +:+ "of 65535.").
Proof. split; reflexivity. Qed.

(** ** Mapping a callback that may throw *)

(** [map_indexed] succeeds exactly when the callback succeeds on every
    element, called with the element's position; the results keep the
    order and the number of the elements. *)
Lemma map_indexed_Ok {A B} (f : Z -> A -> result B) array :
  forall index results,
    map_indexed f index array = Ok results <->
    length results = length array
    /\ forall (k : nat) a,
         array !! k = Some a ->
         exists b, results !! k = Some b /\ f (index + Z.of_nat k) a = Ok b.
Proof.
  induction array as [|a array IH]; intros index results; simpl.
  - split.
    + intros [= <-]. split; [done|]. intros k a Hk. by destruct k.
    + intros [Hlen _]. by destruct results.
  - split.
    + destruct (f index a) as [b|] eqn:Hb; [|done]. simpl.
      destruct (map_indexed f (index + 1) array) as [bs|] eqn:Hbs; [|done].
      simpl. intros [= <-]. apply IH in Hbs as [Hlen Hall].
      split; [simpl; by rewrite Hlen|].
      intros [|k] a' Hk; simpl in *.
      * injection Hk as <-. exists b. by rewrite Z.add_0_r.
      * destruct (Hall k a' Hk) as (b' & Hb' & Hf). exists b'.
        split; [done|]. rewrite <- Hf. f_equal. lia.
    + intros [Hlen Hall]. destruct results as [|b bs]; [done|].
      destruct (Hall 0%nat a eq_refl) as (b' & [= <-] & Hb).
      rewrite Z.add_0_r in Hb. rewrite Hb. simpl.
      assert (Hbs : map_indexed f (index + 1) array = Ok bs).
      { apply IH. split; [simpl in Hlen; lia|].
        intros k a' Hk. destruct (Hall (S k) a' Hk) as (b'' & Hb'' & Hf).
        exists b''. split; [done|]. rewrite <- Hf. f_equal. lia. }
      by rewrite Hbs.
Qed.

(** [map_indexed] throws what the callback throws on the first element
    it fails on. *)
Lemma map_indexed_Throw {A B} (f : Z -> A -> result B) array :
  forall index (k : nat) a e,
    array !! k = Some a ->
    f (index + Z.of_nat k) a = Throw e ->
    (forall (j : nat) a',
       (j < k)%nat -> array !! j = Some a' ->
       exists b, f (index + Z.of_nat j) a' = Ok b) ->
    map_indexed f index array = Throw e.
Proof.
  induction array as [|a0 array IH]; intros index k a e Hk He Hbefore.
  - by destruct k.
  - simpl. destruct k as [|k]; simpl in Hk.
    + injection Hk as <-. rewrite Z.add_0_r in He. by rewrite He.
    + destruct (Hbefore 0%nat a0 ltac:(lia) eq_refl) as [b Hb].
      rewrite Z.add_0_r in Hb. rewrite Hb. simpl.
      rewrite (IH (index + 1) k a e Hk).
      * done.
      * rewrite <- He. f_equal. lia.
      * intros j a' Hj Ha'.
        destruct (Hbefore (S j) a' ltac:(lia) Ha') as [b' Hb'].
        exists b'. rewrite <- Hb'. f_equal. lia.
Qed.

(** [map_indexed] succeeds as soon as the callback succeeds on every
    element. *)
Lemma map_indexed_total {A B} (f : Z -> A -> result B) array :
  forall index,
    (forall (k : nat) a,
       array !! k = Some a -> exists b, f (index + Z.of_nat k) a = Ok b) ->
    exists results, map_indexed f index array = Ok results.
Proof.
  induction array as [|a array IH]; intros index Hall; simpl.
  - by exists [].
  - destruct (Hall 0%nat a eq_refl) as [b Hb].
    rewrite Z.add_0_r in Hb. rewrite Hb. simpl.
    destruct (IH (index + 1)) as [bs Hbs].
    { intros k a' Hk. destruct (Hall (S k) a' Hk) as [b' Hb'].
      exists b'. rewrite <- Hb'. f_equal. lia. }
    rewrite Hbs. by exists (b :: bs).
Qed.

(** ** The frame table *)

(** The frame table is the mapped list, once its length is checked. *)
Lemma frames_map refreshRate png data derived :
  frames refreshRate png data = Ok derived ->
  map_indexed (derive_frame refreshRate png) 0 (Data.frames data)
  = Ok derived
  /\ Z.of_nat (length derived) <= 65535.
Proof.
  unfold frames.
  destruct (map_indexed _ 0 (Data.frames data)) as [fs|]; [|done].
  simpl. destruct (Z.ltb_spec 65535 (Z.of_nat (length fs))); [done|].
  by intros [= <-].
Qed.

(** X4.  When the frames are derived, there is one derived frame per
    frame of the metadata, in the same order, each derived from the
    frame at its position with that position as index, and there are at
    most 65535 of them. *)
Theorem frames_are_derived_in_order refreshRate png data derived :
  frames refreshRate png data = Ok derived ->
  length derived = length (Data.frames data)
  /\ Z.of_nat (length derived) <= 65535
  /\ forall (k : nat) frame,
       Data.frames data !! k = Some frame ->
       exists d,
         derived !! k = Some d
         /\ derive_frame refreshRate png (Z.of_nat k) frame = Ok d.
Proof.
  intros [Hmap Hcount]%frames_map.
  apply map_indexed_Ok in Hmap as [Hlen Hall].
  split; [done|]. split; [done|]. exact Hall.
Qed.

Lemma frames_are_derived_in_order_witness :
  length
    [ {| Frame.width := 1; Frame.height := 1;
         Frame.xOffset := (-1 # 2)%Q; Frame.yOffset := (-1 # 2)%Q;
         Frame.duration := 3; Frame.rgba := Png.data two_pixel_sheet |};
      {| Frame.width := 2; Frame.height := 1;
         Frame.xOffset := (-1)%Q; Frame.yOffset := (-1 # 2)%Q;
         Frame.duration := 6; Frame.rgba := Png.data two_pixel_sheet |} ]
  = length (Data.frames example_data)
  /\ Z.of_nat 2 <= 65535
  /\ forall (k : nat) frame,
       Data.frames example_data !! k = Some frame ->
       exists d,
         [ {| Frame.width := 1; Frame.height := 1;
              Frame.xOffset := (-1 # 2)%Q; Frame.yOffset := (-1 # 2)%Q;
              Frame.duration := 3; Frame.rgba := Png.data two_pixel_sheet |};
           {| Frame.width := 2; Frame.height := 1;
              Frame.xOffset := (-1)%Q; Frame.yOffset := (-1 # 2)%Q;
              Frame.duration := 6;
              Frame.rgba := Png.data two_pixel_sheet |} ] !! k
         = Some d
         /\ derive_frame 60 two_pixel_sheet (Z.of_nat k) frame = Ok d.
Proof.
  apply (frames_are_derived_in_order 60 two_pixel_sheet example_data).
  reflexivity.
Defined.

(** X5.  The first frame that fails decides the outcome: when the frame
    at position [k] throws and every frame before it is derived, the
    frame table fails with that frame's error, and so does the whole
    conversion, whatever the tags are. *)
Theorem first_failing_frame_decides {P : Path} commandLineArguments png data
    (k : nat) frame e :
  Data.frames data !! k = Some frame ->
  derive_frame (refreshRate commandLineArguments) png (Z.of_nat k) frame
  = Throw e ->
  (forall (j : nat) earlier,
     (j < k)%nat -> Data.frames data !! j = Some earlier ->
     exists d,
       derive_frame (refreshRate commandLineArguments) png (Z.of_nat j)
         earlier = Ok d) ->
  frames (refreshRate commandLineArguments) png data = Throw e
  /\ main commandLineArguments data png = Throw e.
Proof.
  intros Hk He Hbefore.
  assert (H : frames (refreshRate commandLineArguments) png data = Throw e).
  { unfold frames.
    rewrite (map_indexed_Throw _ _ 0 k frame e Hk); [done|done|].
    intros j a' Hj Ha'. by apply (Hbefore j). }
  split; [exact H|]. unfold main. by rewrite H.
Qed.

Lemma first_failing_frame_decides_witness :
  frames 60 two_pixel_sheet
    {| Data.frames :=
         [corner_frame 1 1 50; corner_frame 1 1 51; corner_frame 70000 1 16];
       Data.frameTags := [] |}
  = Throw (IncompatibleDuration 2 51 60)
  /\ main (P := Posix.path) example_arguments
       {| Data.frames :=
            [corner_frame 1 1 50; corner_frame 1 1 51;
             corner_frame 70000 1 16];
          Data.frameTags := [] |}
       two_pixel_sheet
     = Throw (IncompatibleDuration 2 51 60).
Proof.
  apply (first_failing_frame_decides (P := Posix.path) example_arguments
           two_pixel_sheet _ 1 (corner_frame 1 1 51)).
  - reflexivity.
  - reflexivity.
  - intros [|j] earlier Hj Hearlier; [|lia].
    injection Hearlier as <-. eexists. reflexivity.
Defined.

(** X6.  The frame count is checked after every frame has been derived:
    when all frames of the metadata can be derived, the frame table
    fails with the frame count error exactly when there are more than
    65535 of them, and that error carries the count. *)
Theorem frame_count_limit refreshRate png data :
  (forall (k : nat) frame,
     Data.frames data !! k = Some frame ->
     exists d, derive_frame refreshRate png (Z.of_nat k) frame = Ok d) ->
  (65535 < Z.of_nat (length (Data.frames data)) ->
   frames refreshRate png data
   = Throw (FrameCountLimit (Z.of_nat (length (Data.frames data)))))
  /\ (Z.of_nat (length (Data.frames data)) <= 65535 ->
      exists derived, frames refreshRate png data = Ok derived).
Proof.
  intros Hall. unfold frames.
  destruct (map_indexed_total (derive_frame refreshRate png)
              (Data.frames data) 0 Hall) as [fs Hfs].
  rewrite Hfs. simpl.
  apply map_indexed_Ok in Hfs as [Hlen _]. rewrite Hlen.
  split; intros Hcount.
  - destruct (Z.ltb_spec 65535 (Z.of_nat (length (Data.frames data))));
      [done|lia].
  - destruct (Z.ltb_spec 65535 (Z.of_nat (length (Data.frames data))));
      [lia|]. by exists fs.
Qed.

Lemma frame_count_limit_witness :
  frames 1 two_pixel_sheet
    {| Data.frames := replicate (Z.to_nat 65536) (corner_frame 1 1 1000);
       Data.frameTags := [] |}
  = Throw
      (FrameCountLimit
         (Z.of_nat
            (length (replicate (Z.to_nat 65536) (corner_frame 1 1 1000))))).
Proof.
  apply (frame_count_limit 1 two_pixel_sheet
           {| Data.frames := replicate (Z.to_nat 65536) (corner_frame 1 1 1000);
              Data.frameTags := [] |}).
  - cbn [Data.frames].
    intros k frame [-> _]%lookup_replicate. eexists. reflexivity.
  - cbn [Data.frames]. rewrite length_replicate. lia.
Defined.

(** ** The offsets *)

(** Twice the offset is the integer [2 * spriteSource - source]. *)
Lemma offset_Qeq spriteSource source :
  (offset spriteSource source == (2 * spriteSource - source) # 2)%Q.
Proof.
  unfold offset. rewrite Qred_correct.
  unfold Qeq, Qminus, Qplus, Qopp, Qdiv, Qmult, Qinv, inject_Z. simpl. lia.
Qed.

Lemma offset_at_most spriteSource source limit :
  Qle_bool (offset spriteSource source) (inject_Z limit)
  = (2 * spriteSource - source <=? 2 * limit).
Proof.
  apply eq_iff_eq_true. rewrite Qle_bool_iff, Z.leb_le, offset_Qeq.
  unfold Qle, inject_Z. simpl. lia.
Qed.

Lemma offset_at_least spriteSource source limit :
  Qle_bool (inject_Z limit) (offset spriteSource source)
  = (2 * limit <=? 2 * spriteSource - source).
Proof.
  apply eq_iff_eq_true. rewrite Qle_bool_iff, Z.leb_le, offset_Qeq.
  unfold Qle, inject_Z. simpl. lia.
Qed.

(** X2.  For a frame whose width and height are within their limits,
    the x offset check fails exactly beyond 32767 and below -32768,
    halves included: with [t = 2 * spriteSourceSize.x - sourceSize.w]
    (twice the offset), [t > 65534] throws the upper x offset error and
    [t < -65536] the lower one, both reporting the 1-based frame number;
    when the x offset is within its limits the same holds for y. *)
Theorem offset_limits refreshRate png index frame :
  Data.frame_w frame <= 65535 ->
  Data.frame_h frame <= 65535 ->
  let tx := 2 * Data.spriteSourceSize_x frame - Data.sourceSize_w frame in
  let ty := 2 * Data.spriteSourceSize_y frame - Data.sourceSize_h frame in
  (65534 < tx ->
   derive_frame refreshRate png index frame
   = Throw (XOffsetUpperLimit (index + 1)
              (offset (Data.spriteSourceSize_x frame)
                 (Data.sourceSize_w frame))))
  /\ (tx < -65536 ->
      derive_frame refreshRate png index frame
      = Throw (XOffsetLowerLimit (index + 1)
                 (offset (Data.spriteSourceSize_x frame)
                    (Data.sourceSize_w frame))))
  /\ (-65536 <= tx <= 65534 -> 65534 < ty ->
      derive_frame refreshRate png index frame
      = Throw (YOffsetUpperLimit (index + 1)
                 (offset (Data.spriteSourceSize_y frame)
                    (Data.sourceSize_h frame))))
  /\ (-65536 <= tx <= 65534 -> ty < -65536 ->
      derive_frame refreshRate png index frame
      = Throw (YOffsetLowerLimit (index + 1)
                 (offset (Data.spriteSourceSize_y frame)
                    (Data.sourceSize_h frame))))
  /\ (-65536 <= tx <= 65534 -> -65536 <= ty <= 65534 ->
      within_limits frame = true).
Proof.
  intros Hw Hh tx ty. subst tx ty.
  unfold derive_frame, within_limits, offsets_within_limits. cbv zeta.
  destruct (Z.ltb_spec 65535 (Data.frame_w frame)); [lia|].
  destruct (Z.ltb_spec 65535 (Data.frame_h frame)); [lia|].
  unfold Qgtb, Qltb. rewrite !offset_at_most, !offset_at_least.
  repeat split; intros;
    repeat match goal with
           | |- context [?a <=? ?b] => destruct (Z.leb_spec a b); try lia
           end; reflexivity.
Qed.

Lemma offset_limits_witness :
  derive_frame 60 two_pixel_sheet 0
    {| Data.frame_x := 0; Data.frame_y := 0;
       Data.frame_w := 1; Data.frame_h := 1;
       Data.spriteSourceSize_x := 32768; Data.spriteSourceSize_y := 0;
       Data.sourceSize_w := 1; Data.sourceSize_h := 1;
       Data.duration := 50 |}
  = Throw (XOffsetUpperLimit (0 + 1) (offset 32768 1))
  /\ within_limits
       {| Data.frame_x := 0; Data.frame_y := 0;
          Data.frame_w := 1; Data.frame_h := 1;
          Data.spriteSourceSize_x := 32767; Data.spriteSourceSize_y := 0;
          Data.sourceSize_w := 0; Data.sourceSize_h := 65536;
          Data.duration := 50 |}
     = true.
Proof.
  split.
  - apply (offset_limits 60 two_pixel_sheet 0
             {| Data.frame_x := 0; Data.frame_y := 0;
                Data.frame_w := 1; Data.frame_h := 1;
                Data.spriteSourceSize_x := 32768;
                Data.spriteSourceSize_y := 0;
                Data.sourceSize_w := 1; Data.sourceSize_h := 1;
                Data.duration := 50 |}); simpl; lia.
  - apply (offset_limits 60 two_pixel_sheet 0
             {| Data.frame_x := 0; Data.frame_y := 0;
                Data.frame_w := 1; Data.frame_h := 1;
                Data.spriteSourceSize_x := 32767;
                Data.spriteSourceSize_y := 0;
                Data.sourceSize_w := 0; Data.sourceSize_h := 65536;
                Data.duration := 50 |}); simpl; lia.
Defined.






(** X1.  Every derived frame keeps the width and height of its
    rectangle, both at most 65535; its offsets lie in [-32768, 32767];
    its ticks are exact, [duration * 1000 = duration_ms * refreshRate];
    the area of its rectangle is not negative; and its pixels are the
    bytes of the whole sheet. *)
Theorem derived_frame_invariant refreshRate png index frame derived :
  derive_frame refreshRate png index frame = Ok derived ->
  Frame.width derived = Data.frame_w frame
  /\ Frame.height derived = Data.frame_h frame
  /\ Frame.width derived <= 65535
  /\ Frame.height derived <= 65535
  /\ (inject_Z (-32768) <= Frame.xOffset derived <= inject_Z 32767)%Q
  /\ (inject_Z (-32768) <= Frame.yOffset derived <= inject_Z 32767)%Q
  /\ Frame.duration derived * 1000 = Data.duration frame * refreshRate
  /\ 0 <= Data.frame_w frame * Data.frame_h frame
  /\ Frame.rgba derived = Png.data png.
Proof.
  unfold derive_frame, Qgtb, Qltb. cbv zeta.
  destruct (Z.ltb_spec 65535 (Data.frame_w frame)) as [|Hw]; [done|].
  destruct (Z.ltb_spec 65535 (Data.frame_h frame)) as [|Hh]; [done|].
  destruct (Qle_bool (offset _ (Data.sourceSize_w frame)) _) eqn:Hx1;
    simpl; [|done].
  destruct (Qle_bool _ (offset _ (Data.sourceSize_w frame))) eqn:Hx2;
    simpl; [|done].
  destruct (Qle_bool (offset _ (Data.sourceSize_h frame)) _) eqn:Hy1;
    simpl; [|done].
  destruct (Qle_bool _ (offset _ (Data.sourceSize_h frame))) eqn:Hy2;
    simpl; [|done].
  destruct (Z.eqb_spec (Z.rem (Data.duration frame * refreshRate) 1000) 0)
    as [Hrem|]; simpl; [|done].
  unfold Js.alloc.
  destruct (Z.ltb_spec (Data.frame_w frame * Data.frame_h frame * 4) 0)
    as [|Harea]; simpl; [done|].
  intros [= <-]. simpl.
  apply Qle_bool_iff in Hx1, Hx2, Hy1, Hy2.
  apply Z.rem_divide in Hrem as [q Hq]; [|lia].
  repeat split; try done; try lia.
  rewrite Hq, Z.div_mul by lia. reflexivity.
Qed.

Lemma derived_frame_invariant_witness :
  1 = 1 /\ 1 = 1 /\ 1 <= 65535 /\ 1 <= 65535
  /\ (inject_Z (-32768) <= -1 # 2 <= inject_Z 32767)%Q
  /\ (inject_Z (-32768) <= -1 # 2 <= inject_Z 32767)%Q
  /\ 3 * 1000 = 50 * 60
  /\ 0 <= 1 * 1
  /\ [200; 100; 50; 128; 10; 20; 30; 255] = Png.data two_pixel_sheet.
Proof.
  apply (derived_frame_invariant 60 two_pixel_sheet 0 (corner_frame 1 1 50)
           {| Frame.width := 1; Frame.height := 1;
              Frame.xOffset := (-1 # 2)%Q; Frame.yOffset := (-1 # 2)%Q;
              Frame.duration := 3;
              Frame.rgba := [200; 100; 50; 128; 10; 20; 30; 255] |}).
  reflexivity.
Defined.

(** ** The resolved tags *)

(** The summation loop either meets a missing frame, and throws the
    runtime's error, or adds up the ticks of all indices. *)
Lemma sum_durations_spec frames indices : forall duration,
  sum_durations frames duration indices
  = match mapM (ticks_at frames) indices with
    | Some durations => Ok (duration + total durations)
    | None => Throw TypeError
    end.
Proof.
  induction indices as [|index indices IH]; intros duration; simpl.
  - f_equal. lia.
  - unfold add_duration.
    destruct (Js.get frames index) as [frame|] eqn:Hget.
    + assert (ticks_at frames index = Some (Frame.duration frame)) as ->
        by (unfold ticks_at; by rewrite Hget).
      simpl. rewrite IH.
      destruct (mapM (ticks_at frames) indices); simpl; [|done].
      f_equal. lia.
    + assert (ticks_at frames index = None) as ->
        by (unfold ticks_at; by rewrite Hget).
      done.
Qed.

Lemma total_app l1 l2 : total (l1 ++ l2) = total l1 + total l2.
Proof. induction l1 as [|d l1 IH]; simpl; [done|]. rewrite IH. lia. Qed.

Lemma total_reverse l : total (reverse l) = total l.
Proof.
  induction l as [|d l IH]; [done|].
  rewrite reverse_cons, total_app, IH. simpl. lia.
Qed.

Lemma mapM_reverse {A B} (f : A -> option B) l :
  mapM f (reverse l) = reverse <$> mapM f l.
Proof.
  destruct (mapM f l) as [k|] eqn:H; simpl.
  - apply mapM_Some, Forall2_reverse. by apply mapM_Some.
  - apply mapM_None in H. apply Exists_exists in H as (x & Hx & Hfx).
    apply mapM_None, Exists_exists.
    exists x. split; [by apply elem_of_reverse|done].
Qed.

(** An index whose frame exists lies within the frame table. *)
Lemma get_Some_range {A} (array : list A) index a :
  Js.get array index = Some a -> 0 <= index < Z.of_nat (length array).
Proof.
  unfold Js.get. destruct (Z.ltb_spec index 0) as [|Hge]; [done|].
  intros Hlt%lookup_lt_Some. lia.
Qed.

(** The loops only push indices between [from] and [to]. *)
Lemma tag_indices_range tag indices index :
  tag_indices tag = Ok indices -> index ∈ indices ->
  Data.from tag <= index <= Data.to tag.
Proof.
  destruct tag as [name from to [| | |other]]; simpl;
    [rewrite tag_indices_forward | rewrite tag_indices_reverse
    | rewrite tag_indices_pingpong | done].
  all: intros [= <-].
  all: rewrite ?elem_of_app, ?elem_of_reverse, !elem_of_seqZ; lia.
Qed.

(** What a successful expansion went through. *)
Lemma expand_tag_Ok frames tag resolved :
  expand_tag frames tag = Ok resolved ->
  exists indices durations,
    tag_indices tag = Ok indices
    /\ mapM (ticks_at frames) indices = Some durations
    /\ total durations <= 65535
    /\ resolved
       = {| Tag.name := Data.name tag;
            Tag.indices := indices;
            Tag.duration := total durations |}.
Proof.
  unfold expand_tag.
  destruct (tag_indices tag) as [indices|]; [|done]. simpl.
  rewrite sum_durations_spec.
  destruct (mapM (ticks_at frames) indices) as [durations|] eqn:Hticks;
    [|done]. rewrite Z.add_0_l. simpl.
  destruct (Z.ltb_spec 65535 (total durations)); [done|].
  intros [= <-]. by exists indices, durations.
Qed.

(** Indices whose ticks can all be read lie within the frame table. *)
Lemma ticks_defined_range frames indices durations index :
  mapM (ticks_at frames) indices = Some durations ->
  index ∈ indices ->
  0 <= index < Z.of_nat (length frames).
Proof.
  intros Hticks%mapM_Some [k Hk]%list_elem_of_lookup.
  destruct (Forall2_lookup_l _ _ _ _ _ Hticks Hk) as (d & _ & Hd).
  unfold ticks_at in Hd.
  destruct (Js.get frames index) as [frame|] eqn:Hget; [|done].
  by eapply get_Some_range.
Qed.

(** X7.  Every resolved tag keeps the name of its tag, carries the
    indices the loops pushed, all between [from] and [to] and all
    referring to an existing frame, and its duration is the sum of the
    ticks of the frames at those indices, at most 65535. *)
Theorem resolved_tag_invariant frames tag resolved :
  expand_tag frames tag = Ok resolved ->
  Tag.name resolved = Data.name tag
  /\ tag_indices tag = Ok (Tag.indices resolved)
  /\ Tag.duration resolved <= 65535
  /\ (exists durations,
        mapM (ticks_at frames) (Tag.indices resolved) = Some durations
        /\ Tag.duration resolved = total durations)
  /\ forall index,
       index ∈ Tag.indices resolved ->
       Data.from tag <= index <= Data.to tag
       /\ 0 <= index < Z.of_nat (length frames).
Proof.
  intros (indices & durations & Hindices & Hticks & Hlimit & ->)%expand_tag_Ok.
  simpl. split; [done|]. split; [done|]. split; [done|].
  split; [by exists durations|].
  intros index Hin. split; [by eapply tag_indices_range|].
  by eapply ticks_defined_range.
Qed.

Lemma resolved_tag_invariant_witness :
  "walk" = "walk"
  /\ tag_indices (Data.Build_FrameTag "walk" 0 2 Data.pingpong)
     = Ok [0; 1; 2; 1]
  /\ 19 <= 65535
  /\ (exists durations,
        mapM (ticks_at [still 3; still 5; still 6]) [0; 1; 2; 1]
        = Some durations
        /\ 19 = total durations)
  /\ forall index,
       index ∈ [0; 1; 2; 1] ->
       0 <= index <= 2
       /\ 0 <= index < Z.of_nat (length [still 3; still 5; still 6]).
Proof.
  apply (resolved_tag_invariant [still 3; still 5; still 6]
           (Data.Build_FrameTag "walk" 0 2 Data.pingpong)
           {| Tag.name := "walk"; Tag.indices := [0; 1; 2; 1];
              Tag.duration := 19 |}).
  reflexivity.
Defined.

(** X8.  A reverse tag is the forward tag over the same range played
    backwards: it fails with the same error when the forward tag fails,
    and otherwise resolves to the same duration with the indices in the
    opposite order. *)
Theorem reverse_tag_mirrors_forward frames name from to :
  expand_tag frames (Data.Build_FrameTag name from to Data.reverse)
  = match
      expand_tag frames (Data.Build_FrameTag name from to Data.forward)
    with
    | Ok resolved =>
        Ok {| Tag.name := Tag.name resolved;
              Tag.indices := reverse (Tag.indices resolved);
              Tag.duration := Tag.duration resolved |}
    | Throw e => Throw e
    end.
Proof.
  unfold expand_tag. rewrite tag_indices_forward, tag_indices_reverse.
  simpl. rewrite !sum_durations_spec, mapM_reverse.
  destruct (mapM (ticks_at frames) (seqZ from (to - from + 1)))
    as [durations|]; simpl; [|done].
  rewrite total_reverse, Z.add_0_l.
  destruct (65535 <? total durations); reflexivity.
Qed.

(** The resolved tags carry the names of the tags, in order. *)
Lemma tags_names frames data resolved :
  tags frames data = Ok resolved ->
  List.map Tag.name resolved = List.map Data.name (Data.frameTags data).
Proof.
  unfold tags. intros [Hlen Hall]%map_indexed_Ok.
  apply list_eq. intros k. rewrite !list_lookup_fmap.
  destruct (Data.frameTags data !! k) as [tag|] eqn:Hk; simpl.
  - destruct (Hall k tag Hk) as (r & -> & Hr). simpl.
    f_equal. by eapply expand_tag_name.
  - apply lookup_ge_None in Hk. rewrite <- Hlen in Hk.
    apply lookup_ge_None in Hk. by rewrite Hk.
Qed.

(** X9.  When the tags are resolved, there is one resolved tag per tag
    of the metadata, in the same order, each resolved from the tag at
    its position and under its name. *)
Theorem tags_are_resolved_in_order frames data resolved :
  tags frames data = Ok resolved ->
  length resolved = length (Data.frameTags data)
  /\ List.map Tag.name resolved = List.map Data.name (Data.frameTags data)
  /\ forall (k : nat) tag,
       Data.frameTags data !! k = Some tag ->
       exists r, resolved !! k = Some r /\ expand_tag frames tag = Ok r.
Proof.
  intros Htags. pose proof (tags_names _ _ _ Htags) as Hnames.
  unfold tags in Htags. apply map_indexed_Ok in Htags as [Hlen Hall].
  split; [done|]. split; [done|]. exact Hall.
Qed.

Lemma tags_are_resolved_in_order_witness :
  length
    [ {| Tag.name := "Walk Left"; Tag.indices := [0; 1]; Tag.duration := 9 |};
      {| Tag.name := "idle"; Tag.indices := [0]; Tag.duration := 3 |} ]
  = length (Data.frameTags example_data)
  /\ List.map Tag.name
       [ {| Tag.name := "Walk Left"; Tag.indices := [0; 1];
            Tag.duration := 9 |};
         {| Tag.name := "idle"; Tag.indices := [0]; Tag.duration := 3 |} ]
     = List.map Data.name (Data.frameTags example_data)
  /\ forall (k : nat) tag,
       Data.frameTags example_data !! k = Some tag ->
       exists r,
         [ {| Tag.name := "Walk Left"; Tag.indices := [0; 1];
              Tag.duration := 9 |};
           {| Tag.name := "idle"; Tag.indices := [0]; Tag.duration := 3 |} ]
         !! k = Some r
         /\ expand_tag [still 3; still 6] tag = Ok r.
Proof.
  apply (tags_are_resolved_in_order [still 3; still 6] example_data).
  reflexivity.
Defined.

(** ** More about the emitted text *)

(** The ticks of the derived frames, read off the metadata. *)
Lemma derived_durations refreshRate png data derived :
  frames refreshRate png data = Ok derived ->
  List.map (fun frame => integer_to_string (Frame.duration frame)) derived
  = List.map
      (fun frame =>
         integer_to_string (Data.duration frame * refreshRate / 1000))
      (Data.frames data).
Proof.
  intros [[Hlen Hall]%map_indexed_Ok _]%frames_map.
  apply list_eq. intros k. rewrite !list_lookup_fmap.
  destruct (Data.frames data !! k) as [frame|] eqn:Hk; simpl.
  - destruct (Hall k frame Hk) as (d & -> & Hd). simpl. do 2 f_equal.
    revert Hd. unfold derive_frame. cbv zeta.
    repeat (match goal with
            | |- context [if ?c then _ else _] => destruct c
            end; [done|]).
    destruct (Js.alloc _); [|done]. simpl. by intros [= <-].
  - apply lookup_ge_None in Hk. rewrite <- Hlen in Hk.
    apply lookup_ge_None in Hk. by rewrite Hk.
Qed.

Lemma static_array_text type name suffix frames values :
  static_array type name suffix frames values
  = ("static const " +:+ type +:+ " " +:+ name +:+ suffix +:+ "["
     +:+ integer_to_string (length_of frames) +:+ "] = { "
     +:+ String.concat ", " values +:+ " };")
    +:+ LF.
Proof. unfold static_array. by rewrite !append_assoc. Qed.

(** X10.  Whenever the conversion succeeds, the durations array of the
    source lists, for every frame of the metadata in order, exactly
    [duration_ms * refreshRate / 1000]: no check bounds the ticks of a
    single frame, so a number above 65535 goes into this [u16_t] array
    as it is. *)
Theorem durations_array_lists_every_frame {P : Path} commandLineArguments
    data png files :
  main commandLineArguments data png = Ok files ->
  exists header_text source_text,
    files
    = [ {| file_path := output commandLineArguments +:+ ".h";
           file_content := header_text |};
        {| file_path := output commandLineArguments +:+ ".c";
           file_content := source_text |} ]
    /\ contains
         ("static const " +:+ "u16_t" +:+ " "
          +:+ Identifier.convertFileNameToIdentifier
                (parse_name (asepriteFile commandLineArguments))
          +:+ "_durations" +:+ "["
          +:+ integer_to_string (length_of (Data.frames data)) +:+ "] = { "
          +:+ String.concat ", "
                (List.map
                   (fun frame =>
                      integer_to_string
                        (Data.duration frame
                         * refreshRate commandLineArguments / 1000))
                   (Data.frames data))
          +:+ " };")
         source_text = true.
Proof.
  unfold main.
  destruct (frames _ _ _) as [derived|] eqn:Hframes; [|done]. simpl.
  destruct (tags derived _) as [resolved|]; [|done]. simpl.
  intros [= <-]. eexists. eexists. split; [reflexivity|].
  rewrite <- (derived_durations _ _ _ _ Hframes).
  apply frames_map in Hframes as [[Hlen _]%map_indexed_Ok _].
  unfold length_of at 1. rewrite <- Hlen.
  unfold source. rewrite !static_array_text.
  find_in_text ltac:(apply contains_append_l, contains_refl).
Qed.

Lemma durations_array_lists_every_frame_witness :
  exists files,
    main (P := Posix.path) example_arguments
      {| Data.frames := [corner_frame 1 1 1100000]; Data.frameTags := [] |}
      two_pixel_sheet
    = Ok files
    /\ exists header_text source_text,
         files
         = [ {| file_path := output example_arguments +:+ ".h";
                file_content := header_text |};
             {| file_path := output example_arguments +:+ ".c";
                file_content := source_text |} ]
         /\ contains
              "static const u16_t aseprite_file_durations[1] = { 66000 };"
              source_text = true.
Proof.
  eexists. split; [reflexivity|].
  apply (durations_array_lists_every_frame (P := Posix.path)
           example_arguments
           {| Data.frames := [corner_frame 1 1 1100000];
              Data.frameTags := [] |}
           two_pixel_sheet).
  reflexivity.
Defined.

(** X12.  The header depends on the arguments and on the names of the
    tags only: two successful conversions with the same arguments whose
    tags have the same names, in the same order, write the same header,
    whatever the frames, the pixels and the ranges of the tags are. *)
Theorem header_depends_on_tag_names_only {P : Path} commandLineArguments
    data1 png1 data2 png2 header1 source1 header2 source2 :
  main commandLineArguments data1 png1 = Ok [header1; source1] ->
  main commandLineArguments data2 png2 = Ok [header2; source2] ->
  List.map Data.name (Data.frameTags data1)
  = List.map Data.name (Data.frameTags data2) ->
  header1 = header2.
Proof.
  unfold main.
  destruct (frames _ png1 data1) as [derived1|]; [|done]. simpl.
  destruct (tags derived1 data1) as [resolved1|] eqn:H1; [|done]. simpl.
  destruct (frames _ png2 data2) as [derived2|]; [|done]. simpl.
  destruct (tags derived2 data2) as [resolved2|] eqn:H2; [|done]. simpl.
  intros [= <- _] [= <- _] Hnames. f_equal.
  apply tags_names in H1 as Hnames1.
  apply tags_names in H2 as Hnames2.
  unfold header. do 14 f_equal.
  rewrite <- !(List.map_map Tag.name
                 (fun name => "extern const sprite_animation_t " +:+ name
                              +:+ ";")).
  by rewrite Hnames1, Hnames2, Hnames.
Qed.

Lemma header_depends_on_tag_names_only_witness :
  {| file_path := output example_arguments +:+ ".h";
     file_content :=
       header (P := Posix.path) example_arguments "aseprite_file"
         [ {| Tag.name := "Walk Left"; Tag.indices := [0; 1];
              Tag.duration := 9 |};
           {| Tag.name := "idle"; Tag.indices := [0]; Tag.duration := 3 |} ]
  |}
  = {| file_path := output example_arguments +:+ ".h";
       file_content :=
         header (P := Posix.path) example_arguments "aseprite_file"
           [ {| Tag.name := "Walk Left"; Tag.indices := [0];
                Tag.duration := 6 |};
             {| Tag.name := "idle"; Tag.indices := []; Tag.duration := 0 |} ]
    |}.
Proof.
  eapply (header_depends_on_tag_names_only (P := Posix.path)
            example_arguments
            example_data two_pixel_sheet
            {| Data.frames := [corner_frame 1 1 100];
               Data.frameTags :=
                 [ Data.Build_FrameTag "Walk Left" 0 0 Data.reverse;
                   Data.Build_FrameTag "idle" 3 3 Data.pingpong ] |}
            {| Png.width := 1; Png.height := 1; Png.data := [1; 2; 3; 4] |});
    reflexivity.
Defined.

Lemma starts_with_contains needle text :
  starts_with needle text = true -> contains needle text = true.
Proof. intros H. destruct text; simpl; by rewrite H. Qed.

Lemma starts_with_append part needle text :
  starts_with needle text = true ->
  starts_with (part +:+ needle) (part +:+ text) = true.
Proof.
  rewrite !starts_with_spec. intros [after ->].
  exists after. by rewrite append_assoc.
Qed.

Lemma starts_with_prefix needle after :
  starts_with needle (needle +:+ after) = true.
Proof. apply starts_with_spec. by exists after. Qed.

(** Walks down a template to the place where a text of several parts
    starts, then along the parts. *)
Ltac find_parts_in_text :=
  first [ apply starts_with_contains;
          repeat apply starts_with_append;
          apply starts_with_prefix
        | apply contains_append_r; find_parts_in_text ].

Lemma map_with_index_lookup {A B} (f : A -> Z -> B) array (k : nat) a :
  array !! k = Some a ->
  In (f a (Z.of_nat k)) (map_with_index f array).
Proof.
  intros Hk. apply list_elem_of_In, list_elem_of_lookup. exists k.
  unfold map_with_index. by rewrite list_lookup_imap, Hk.
Qed.

Lemma map_with_index_positions {A B} (g : Z -> B) (array : list A) :
  map_with_index (fun _ index => g index) array
  = List.map g (seqZ 0 (length_of array)).
Proof.
  apply list_eq. intros k. unfold map_with_index, length_of.
  rewrite list_lookup_imap, list_lookup_fmap.
  destruct (array !! k) as [a|] eqn:Hk; simpl.
  - rewrite lookup_seqZ_lt by (apply lookup_lt_Some in Hk; lia). done.
  - rewrite lookup_seqZ_ge by (apply lookup_ge_None in Hk; lia). done.
Qed.

(** X11.  Whenever the conversion succeeds, the source defines one byte
    array per frame, named after the frame's position, and every one of
    them holds all the bytes of the sheet, printed in lowercase
    hexadecimal without padding; the table of pointers lists these
    arrays by name, in the order of the frames. *)
Theorem every_frame_array_is_the_sheet {P : Path} commandLineArguments data
    png files :
  main commandLineArguments data png = Ok files ->
  let name :=
    Identifier.convertFileNameToIdentifier
      (parse_name (asepriteFile commandLineArguments)) in
  exists header_text source_text,
    files
    = [ {| file_path := output commandLineArguments +:+ ".h";
           file_content := header_text |};
        {| file_path := output commandLineArguments +:+ ".c";
           file_content := source_text |} ]
    /\ (forall k : nat,
          (k < length (Data.frames data))%nat ->
          contains
            ("static const u8_t " +:+ name +:+ "_rgba_"
             +:+ integer_to_string (Z.of_nat k) +:+ "["
             +:+ integer_to_string (length_of (Png.data png)) +:+ "] = { "
             +:+ String.concat ", "
                   (List.map (fun byte => "0x" +:+ to_string_16 byte)
                      (Png.data png))
             +:+ " };")
            source_text = true)
    /\ contains
         ("static const u8_t * " +:+ name +:+ "_rgba["
          +:+ integer_to_string (length_of (Data.frames data)) +:+ "] = { "
          +:+ String.concat ", "
                (List.map
                   (fun index =>
                      "&" +:+ name +:+ "_rgba_" +:+ integer_to_string index)
                   (seqZ 0 (length_of (Data.frames data))))
          +:+ " };")
         source_text = true.
Proof.
  intros Hmain name. revert Hmain. unfold main.
  destruct (frames _ _ _) as [derived|] eqn:Hframes; [|done]. simpl.
  destruct (tags derived _) as [resolved|]; [|done]. simpl.
  intros [= <-]. eexists. eexists. split; [reflexivity|].
  apply frames_map in Hframes as [[Hlen Hall]%map_indexed_Ok _].
  fold name. split.
  - intros k Hk.
    destruct (lookup_lt_is_Some_2 (Data.frames data) k Hk) as [frame Hframe].
    destruct (Hall k frame Hframe) as (d & Hd & Hderive).
    apply derive_frame_rgba in Hderive. rewrite <- Hderive.
    unfold source.
    find_in_text
      ltac:(apply contains_concat;
            apply (map_with_index_lookup
                     (fun frame index =>
                        "static const u8_t " +:+ name +:+ "_rgba_"
                        +:+ integer_to_string index +:+ "["
                        +:+ integer_to_string (length_of (Frame.rgba frame))
                        +:+ "] = { "
                        +:+ String.concat ", "
                              (List.map
                                 (fun byte => "0x" +:+ to_string_16 byte)
                                 (Frame.rgba frame))
                        +:+ " };")
                     derived k d Hd)).
  - assert (Hcount : length_of (Data.frames data) = length_of derived)
      by (unfold length_of; by rewrite Hlen).
    rewrite Hcount. unfold source. rewrite map_with_index_positions.
    find_parts_in_text.
Qed.

Lemma every_frame_array_is_the_sheet_witness :
  exists files,
    main (P := Posix.path) example_arguments example_data two_pixel_sheet
    = Ok files
    /\ exists header_text source_text,
         files
         = [ {| file_path := output example_arguments +:+ ".h";
                file_content := header_text |};
             {| file_path := output example_arguments +:+ ".c";
                file_content := source_text |} ]
         /\ (forall k : nat,
               (k < length (Data.frames example_data))%nat ->
               contains
                 ("static const u8_t " +:+ "aseprite_file" +:+ "_rgba_"
                  +:+ integer_to_string (Z.of_nat k) +:+ "["
                  +:+ integer_to_string (length_of (Png.data two_pixel_sheet))
                  +:+ "] = { "
                  +:+ String.concat ", "
                        (List.map (fun byte => "0x" +:+ to_string_16 byte)
                           (Png.data two_pixel_sheet))
                  +:+ " };")
                 source_text = true)
         /\ contains
              ("static const u8_t * aseprite_file_rgba[2] = { "
               +:+ "&aseprite_file_rgba_0, &aseprite_file_rgba_1 };")
              source_text = true.
Proof.
  eexists. split; [reflexivity|].
  apply (every_frame_array_is_the_sheet (P := Posix.path) example_arguments
           example_data two_pixel_sheet).
  reflexivity.
Defined.

(** ** The arithmetic of the premultiplication *)

Lemma Forall_bytes (p : Z -> bool) :
  forallb p (seqZ 0 256) = true -> forall b, 0 <= b <= 255 -> p b = true.
Proof.
  intros H b Hb. rewrite forallb_forall in H. apply H.
  apply list_elem_of_In, elem_of_seqZ. lia.
Qed.

(** X13.  In the binary64 arithmetic of the loops, an opaque pixel
    keeps each colour byte, [Math.floor(raw * (255 / 255)) = raw], a
    fully transparent one gets 0, and the byte stored for the fourth
    channel is [255 - alpha], for all bytes [raw] and [alpha]. *)
Theorem premultiplied_bytes raw alpha :
  0 <= raw <= 255 -> 0 <= alpha <= 255 ->
  Js.to_uint8
    (Js.floor
       (Js.mul (Js.of_element (Some raw))
          (Js.div (Js.of_element (Some 255)) (Js.of_Z 255))))
  = raw
  /\ Js.to_uint8
       (Js.floor
          (Js.mul (Js.of_element (Some raw))
             (Js.div (Js.of_element (Some 0)) (Js.of_Z 255))))
     = 0
  /\ Js.to_uint8 (Js.sub (Js.of_Z 255) (Js.of_element (Some alpha)))
     = 255 - alpha.
Proof.
  intros Hraw Halpha.
  pose proof
    (Forall_bytes
       (fun raw =>
          (Js.to_uint8
             (Js.floor
                (Js.mul (Js.of_element (Some raw))
                   (Js.div (Js.of_element (Some 255)) (Js.of_Z 255))))
           =? raw)
          && (Js.to_uint8
                (Js.floor
                   (Js.mul (Js.of_element (Some raw))
                      (Js.div (Js.of_element (Some 0)) (Js.of_Z 255))))
              =? 0))
       ltac:(vm_compute; reflexivity) raw Hraw) as Hcolour.
  pose proof
    (Forall_bytes
       (fun alpha =>
          Js.to_uint8 (Js.sub (Js.of_Z 255) (Js.of_element (Some alpha)))
          =? 255 - alpha)
       ltac:(vm_compute; reflexivity) alpha Halpha) as Hfourth.
  cbv beta in Hcolour, Hfourth.
  apply andb_true_iff in Hcolour as [Hopaque Hclear].
  apply Z.eqb_eq in Hopaque, Hclear, Hfourth. done.
Qed.

Lemma premultiplied_bytes_witness :
  Js.to_uint8
    (Js.floor
       (Js.mul (Js.of_element (Some 200))
          (Js.div (Js.of_element (Some 255)) (Js.of_Z 255))))
  = 200
  /\ Js.to_uint8
       (Js.floor
          (Js.mul (Js.of_element (Some 200))
             (Js.div (Js.of_element (Some 0)) (Js.of_Z 255))))
     = 0
  /\ Js.to_uint8 (Js.sub (Js.of_Z 255) (Js.of_element (Some 128)))
     = 255 - 128.
Proof.
  apply (premultiplied_bytes 200 128); lia.
Defined.

(** ** The local pixel buffer *)

Lemma foldl_preserves {A B} (I : A -> Prop) (f : A -> B -> A) l : forall a,
  I a -> (forall a b, b ∈ l -> I a -> I (f a b)) -> I (foldl f a l).
Proof.
  induction l as [|b l IH]; intros a Ha Hstep; simpl; [done|].
  apply IH.
  - apply Hstep; [by left|done].
  - intros a' b' Hb'. apply Hstep. by right.
Qed.

(** A write below [bound] leaves the length of the buffer and all its
    bytes from [bound] on as they are. *)
Lemma set_below rgba buffer bound index a :
  index < bound ->
  (length buffer = length rgba
   /\ forall i : nat, bound <= Z.of_nat i -> buffer !! i = rgba !! i) ->
  length (Js.set buffer index a) = length rgba
  /\ forall i : nat,
       bound <= Z.of_nat i -> Js.set buffer index a !! i = rgba !! i.
Proof.
  intros Hindex [Hlen Hrest]. unfold Js.set.
  destruct (Z.ltb_spec index 0); [done|].
  split; [by rewrite length_insert|].
  intros i Hi. rewrite list_lookup_insert_ne by lia. by apply Hrest.
Qed.

(** X14.  The loops never change the length of the buffer they fill and
    never write at position [w * h + 3] or beyond it: of the
    [w * h * 4] bytes allocated for a frame, all but the first
    [w * h + 3] are left as they were (zero). *)
Theorem fill_rgba_confined png frame rgba :
  length (fill_rgba png frame rgba) = length rgba
  /\ forall i : nat,
       Data.frame_w frame * Data.frame_h frame + 3 <= Z.of_nat i ->
       fill_rgba png frame rgba !! i = rgba !! i.
Proof.
  unfold fill_rgba.
  apply (foldl_preserves
           (fun buffer =>
              length buffer = length rgba
              /\ forall i : nat,
                   Data.frame_w frame * Data.frame_h frame + 3 <= Z.of_nat i ->
                   buffer !! i = rgba !! i)); [done|].
  intros buffer y Hy%elem_of_seqZ Hbuffer.
  apply (foldl_preserves
           (fun buffer =>
              length buffer = length rgba
              /\ forall i : nat,
                   Data.frame_w frame * Data.frame_h frame + 3 <= Z.of_nat i ->
                   buffer !! i = rgba !! i)); [done|].
  clear buffer Hbuffer. intros buffer x Hx%elem_of_seqZ Hbuffer. cbv zeta.
  apply set_below; [nia|].
  apply (foldl_preserves
           (fun buffer =>
              length buffer = length rgba
              /\ forall i : nat,
                   Data.frame_w frame * Data.frame_h frame + 3 <= Z.of_nat i ->
                   buffer !! i = rgba !! i)); [done|].
  clear buffer Hbuffer. intros buffer channel Hchannel%elem_of_seqZ Hbuffer.
  apply set_below; [nia|done].
Qed.

Lemma fill_rgba_confined_witness :
  fill_rgba two_pixel_sheet (corner_frame 2 1 50) (replicate 8 0) !! 5%nat
  = replicate 8 0 !! 5%nat.
Proof.
  apply (fill_rgba_confined two_pixel_sheet (corner_frame 2 1 50)).
  simpl. lia.
Defined.

(** ** More about the tags *)

(** X15.  Tags are resolved only once every frame is derived, and the
    first tag that fails decides the outcome: when the frames are
    derived, the tag at position [k] throws and every tag before it is
    resolved, the conversion fails with that tag's error. *)
Theorem first_failing_tag_decides {P : Path} commandLineArguments png data
    derived (k : nat) tag e :
  frames (refreshRate commandLineArguments) png data = Ok derived ->
  Data.frameTags data !! k = Some tag ->
  expand_tag derived tag = Throw e ->
  (forall (j : nat) earlier,
     (j < k)%nat -> Data.frameTags data !! j = Some earlier ->
     exists r, expand_tag derived earlier = Ok r) ->
  tags derived data = Throw e
  /\ main commandLineArguments data png = Throw e.
Proof.
  intros Hframes Hk He Hbefore.
  assert (H : tags derived data = Throw e).
  { unfold tags.
    apply (map_indexed_Throw (fun _ tag => expand_tag derived tag) _ 0 k
             tag e Hk He).
    intros j a' Hj Ha'. by apply (Hbefore j). }
  split; [exact H|]. unfold main. rewrite Hframes. simpl. by rewrite H.
Qed.

Lemma first_failing_tag_decides_witness :
  tags
    [ {| Frame.width := 1; Frame.height := 1;
         Frame.xOffset := (-1 # 2)%Q; Frame.yOffset := (-1 # 2)%Q;
         Frame.duration := 3; Frame.rgba := Png.data two_pixel_sheet |};
      {| Frame.width := 2; Frame.height := 1;
         Frame.xOffset := (-1)%Q; Frame.yOffset := (-1 # 2)%Q;
         Frame.duration := 6; Frame.rgba := Png.data two_pixel_sheet |} ]
    {| Data.frames := [corner_frame 1 1 50; corner_frame 2 1 100];
       Data.frameTags :=
         [ Data.Build_FrameTag "idle" 0 0 Data.forward;
           Data.Build_FrameTag "walk" 0 2 Data.forward;
           Data.Build_FrameTag "turn" 0 0 (Data.unexpected "sideways") ] |}
  = Throw TypeError
  /\ main (P := Posix.path) example_arguments
       {| Data.frames := [corner_frame 1 1 50; corner_frame 2 1 100];
          Data.frameTags :=
            [ Data.Build_FrameTag "idle" 0 0 Data.forward;
              Data.Build_FrameTag "walk" 0 2 Data.forward;
              Data.Build_FrameTag "turn" 0 0 (Data.unexpected "sideways") ]
       |}
       two_pixel_sheet
     = Throw TypeError.
Proof.
  assert (Hframes :
            frames (refreshRate example_arguments) two_pixel_sheet
              {| Data.frames := [corner_frame 1 1 50; corner_frame 2 1 100];
                 Data.frameTags :=
                   [ Data.Build_FrameTag "idle" 0 0 Data.forward;
                     Data.Build_FrameTag "walk" 0 2 Data.forward;
                     Data.Build_FrameTag "turn" 0 0
                       (Data.unexpected "sideways") ] |}
            = Ok [ {| Frame.width := 1; Frame.height := 1;
                      Frame.xOffset := (-1 # 2)%Q;
                      Frame.yOffset := (-1 # 2)%Q;
                      Frame.duration := 3;
                      Frame.rgba := Png.data two_pixel_sheet |};
                   {| Frame.width := 2; Frame.height := 1;
                      Frame.xOffset := (-1)%Q; Frame.yOffset := (-1 # 2)%Q;
                      Frame.duration := 6;
                      Frame.rgba := Png.data two_pixel_sheet |} ])
    by reflexivity.
  apply (first_failing_tag_decides (P := Posix.path) example_arguments
           two_pixel_sheet _ _ 1
           (Data.Build_FrameTag "walk" 0 2 Data.forward) TypeError Hframes).
  - reflexivity.
  - reflexivity.
  - intros [|j] earlier Hj Hearlier; [|lia].
    injection Hearlier as <-. eexists. reflexivity.
Defined.

(** X16.  A pingpong tag over more than one frame lasts twice the
    forward tag over the same range less the ticks of its first and
    last frames: when the forward tag is resolved, the pingpong tag
    sums up to [2 * forward - first - last], and it is resolved with
    that duration, or fails with the tag duration error carrying it
    when it exceeds 65535. *)
Theorem pingpong_duration frames name from to forward :
  from < to ->
  expand_tag frames (Data.Build_FrameTag name from to Data.forward)
  = Ok forward ->
  exists first last,
    Js.get frames from = Some first
    /\ Js.get frames to = Some last
    /\ let duration :=
         2 * Tag.duration forward - Frame.duration first
         - Frame.duration last in
       expand_tag frames (Data.Build_FrameTag name from to Data.pingpong)
       = if 65535 <? duration
         then Throw (TagDurationLimit name duration)
         else Ok {| Tag.name := name;
                    Tag.indices :=
                      seqZ from (to - from)
                      ++ reverse (seqZ (from + 1) (to - from));
                    Tag.duration := duration |}.
Proof.
  intros Hlt Hforward.
  apply expand_tag_Ok in Hforward
    as (indices & durations & Hindices & Hticks & _ & Hrecord).
  rewrite tag_indices_forward in Hindices. injection Hindices as Hindices.
  rewrite <- Hindices in Hticks. apply mapM_Some in Hticks.
  assert (Hduration : Tag.duration forward = total durations)
    by (by rewrite Hrecord).
  pose proof Hticks as Hfront.
  rewrite (seqZ_cons from) in Hfront by lia.
  apply Forall2_cons_inv_l in Hfront as (df & rest & Hfrom & Hrest & Heq).
  pose proof Hticks as Hback.
  replace (to - from + 1) with ((to - from) + 1) in Hback by lia.
  rewrite seqZ_snoc in Hback by lia.
  apply Forall2_app_inv_l in Hback as (body & tail & Hbody & Htail & Heq').
  apply Forall2_cons_inv_l in Htail as (dl & nothing & Hto & Hnil & ->).
  apply Forall2_nil_inv_l in Hnil as ->.
  replace (from + (to - from)) with to in Hto by lia.
  replace (Z.pred (to - from + 1)) with (to - from) in Hrest by lia.
  replace (Z.succ from) with (from + 1) in Hrest by lia.
  unfold ticks_at in Hfrom, Hto.
  destruct (Js.get frames from) as [first|]; [|done].
  destruct (Js.get frames to) as [last|]; [|done].
  simpl in Hfrom, Hto. injection Hfrom as Hfrom. injection Hto as Hto.
  exists first, last. split; [done|]. split; [done|]. cbv zeta.
  unfold expand_tag. rewrite tag_indices_pingpong. simpl.
  rewrite sum_durations_spec.
  assert (Hpingpong :
            mapM (ticks_at frames)
              (seqZ from (to - from) ++ reverse (seqZ (from + 1) (to - from)))
            = Some (body ++ reverse rest)).
  { apply mapM_Some, Forall2_app; [done|]. by apply Forall2_reverse. }
  rewrite Hpingpong, Z.add_0_l, total_app, total_reverse.
  assert (Htotal :
            total body + total rest
            = 2 * Tag.duration forward - Frame.duration first
              - Frame.duration last).
  { rewrite Hduration.
    assert (H1 : total durations = df + total rest) by (by rewrite Heq).
    assert (H2 : total durations = total body + dl)
      by (rewrite Heq', total_app; simpl; lia).
    lia. }
  rewrite Htotal. simpl. destruct (65535 <? _); reflexivity.
Qed.

Lemma pingpong_duration_witness :
  exists first last,
    Js.get [still 3; still 5; still 6] 0 = Some first
    /\ Js.get [still 3; still 5; still 6] 2 = Some last
    /\ expand_tag [still 3; still 5; still 6]
         (Data.Build_FrameTag "walk" 0 2 Data.pingpong)
       = if 65535 <? 2 * 14 - Frame.duration first - Frame.duration last
         then Throw
                (TagDurationLimit "walk"
                   (2 * 14 - Frame.duration first - Frame.duration last))
         else Ok {| Tag.name := "walk";
                    Tag.indices :=
                      seqZ 0 (2 - 0) ++ reverse (seqZ (0 + 1) (2 - 0));
                    Tag.duration :=
                      2 * 14 - Frame.duration first - Frame.duration last |}.
Proof.
  apply (pingpong_duration [still 3; still 5; still 6] "walk" 0 2
           {| Tag.name := "walk"; Tag.indices := [0; 1; 2];
              Tag.duration := 14 |}).
  - lia.
  - reflexivity.
Defined.

(** X17.  After a successful run of both stages, every index of every
    resolved tag refers to a frame of the metadata, and no resolved tag
    lasts more than 65535 ticks. *)
Theorem resolved_tags_refer_to_frames refreshRate png data derived resolved :
  frames refreshRate png data = Ok derived ->
  tags derived data = Ok resolved ->
  forall r,
    r ∈ resolved ->
    Tag.duration r <= 65535
    /\ forall index,
         index ∈ Tag.indices r ->
         0 <= index < Z.of_nat (length (Data.frames data)).
Proof.
  intros [[Hlen _]%map_indexed_Ok _]%frames_map
         Htags%map_indexed_Forall2 r Hr.
  apply list_elem_of_lookup in Hr as [k Hk].
  destruct (Forall2_lookup_r _ _ _ _ _ Htags Hk) as (tag & _ & i & Hexpand).
  apply expand_tag_Ok in Hexpand
    as (indices & durations & _ & Hticks & Hlimit & ->).
  split; [done|]. simpl. intros index Hindex. rewrite <- Hlen.
  by eapply ticks_defined_range.
Qed.

Lemma resolved_tags_refer_to_frames_witness :
  9 <= 65535
  /\ forall index,
       index ∈ [0; 1] ->
       0 <= index < Z.of_nat (length (Data.frames example_data)).
Proof.
  apply (resolved_tags_refer_to_frames 60 two_pixel_sheet example_data
           [ {| Frame.width := 1; Frame.height := 1;
                Frame.xOffset := (-1 # 2)%Q; Frame.yOffset := (-1 # 2)%Q;
                Frame.duration := 3; Frame.rgba := Png.data two_pixel_sheet |};
             {| Frame.width := 2; Frame.height := 1;
                Frame.xOffset := (-1)%Q; Frame.yOffset := (-1 # 2)%Q;
                Frame.duration := 6;
                Frame.rgba := Png.data two_pixel_sheet |} ]
           [ {| Tag.name := "Walk Left"; Tag.indices := [0; 1];
                Tag.duration := 9 |};
             {| Tag.name := "idle"; Tag.indices := [0]; Tag.duration := 3 |} ]
           eq_refl eq_refl
           {| Tag.name := "Walk Left"; Tag.indices := [0; 1];
              Tag.duration := 9 |}).
  constructor.
Defined.
